(** * Realtime_Polling: vote admission, tally and live distribution

    A shallow embedding of the vote controller
    ([src/controllers/voteController.js]: [submitVote],
    [_getPollResultsInternal], [getPollResults], [getUserVotes]) and of
    the socket handlers ([src/websocket/socketHandlers.js]:
    [authenticateSocket], [handleConnection], [getOnlineUsersInPoll]),
    together with the parts of Prisma and of Socket.IO they call.

    Every [await] of the controller is one atomic interaction with the
    store; the handler is resumed with the result some time later, and
    its synchronous code up to the next [await], the broadcast included,
    then runs without interruption on Node's event loop.  A request
    handler is therefore a tree of store commands ([Prog]), and a server
    run is an interleaving of such trees over one shared [World].  Where
    a query has no [orderBy], the order of its rows is the store's
    choice, made anew at every read. *)

From Stdlib Require Import ZArith SpecFloat.
From stdpp Require Import gmap strings list pretty sorting.

Set Warnings "-register-all,-clear-no-such-hyp".

Open Scope string_scope.
Open Scope list_scope.
Open Scope Z_scope.

(** ** JavaScript numbers and JSON values *)

Module Js.

(** A JS number is an IEEE 754 binary64 value. *)
Definition prec : Z := 53.
Definition emax : Z := 1024.

Definition number : Type := spec_float.

(** The number denoted by an integer literal or by an integer column
    of the store (rounded to nearest-even above 2^53). *)
Definition of_Z (z : Z) : number := binary_normalize prec emax z 0 false.

Definition div (x y : number) : number := SFdiv prec emax x y.
Definition mul (x y : number) : number := SFmul prec emax x y.

(** [Math.round]: the integral number closest to [x], ties towards
    +infinity; NaN, the infinities and the zeros are returned as they
    are. *)
Definition Math_round (x : number) : number :=
  match x with
  | S754_finite s m e =>
      if 0 <=? e then x
      else
        let v := if s then Z.neg m else Z.pos m in
        let n := (2 * v + 2 ^ (- e)) / 2 ^ (1 - e) in
        if n =? 0 then S754_zero s else of_Z n
  | _ => x
  end.

Inductive JSON : Type :=
| JNull
| JBool (b : bool)
| JNum (x : number)
| JStr (s : string)
| JArr (items : list JSON)
| JObj (fields : list (string * JSON)).

Definition JInt (z : Z) : JSON := JNum (of_Z z).

(** A JS value: [None] is [undefined]. *)
Definition value : Type := option JSON.

(** A property read [o.k]. *)
Definition prop (k : string) (o : JSON) : value :=
  match o with
  | JObj fields => snd <$> List.find (fun kv => bool_decide (fst kv = k)) fields
  | _ => None
  end.

Definition keys (o : JSON) : list string :=
  match o with
  | JObj fields => fst <$> fields
  | _ => []
  end.

(** ToBoolean, as used by [!v] and [if (v)]. *)
Definition truthy (v : value) : bool :=
  match v with
  | None | Some JNull => false
  | Some (JBool b) => b
  | Some (JNum (S754_zero _)) | Some (JNum S754_nan) => false
  | Some (JNum _) => true
  | Some (JStr s) => negb (bool_decide (s = ""))
  | Some (JArr _) | Some (JObj _) => true
  end.

End Js.

Import Js.

(** ** The relational store (README, "Database Schema") *)

(** [req.user], as the authentication middleware attaches it. *)
Module User.
Record t : Type := mk { id : string; name : string }.
End User.

(** A row of the User table (README, "User Model"). *)
Module Account.
Record t : Type :=
  mk { id : string; name : string; email : string; passwordHash : string;
       createdAt : Z; updatedAt : Z }.
End Account.

Module Poll.
Record t : Type :=
  mk { id : string; question : string; isPublished : bool; userId : string }.
End Poll.

Module PollOption.
Record t : Type := mk { id : string; text : string; pollId : string }.
End PollOption.

Module Vote.
Record t : Type :=
  mk { id : string; userId : string; pollOptionId : string; createdAt : Z }.
End Vote.

(** Tables keep their rows in insertion order; [clock] numbers the
    inserts and stands for both [cuid()] and [now()]. *)
Record Store : Type := {
  users : list Account.t;
  polls : list Poll.t;
  pollOptions : list PollOption.t;
  votes : list Vote.t;
  clock : N
}.

Definition cuid (n : N) : string := "c" +:+ pretty n.

Definition find_user (st : Store) (id : string) : option Account.t :=
  List.find (fun a => bool_decide (Account.id a = id)) (users st).

Definition find_poll (st : Store) (id : string) : option Poll.t :=
  List.find (fun p => bool_decide (Poll.id p = id)) (polls st).

Definition find_option (st : Store) (id : string) : option PollOption.t :=
  List.find (fun o => bool_decide (PollOption.id o = id)) (pollOptions st).

(** The poll a vote for option [optionId] counts in (the relation
    [vote.pollOption.pollId]). *)
Definition poll_of_option (st : Store) (optionId : string) : option string :=
  PollOption.pollId <$> find_option st optionId.

(** The relation filter [{ userId, pollOption: { pollId } }]. *)
Definition vote_in_poll (st : Store) (userId pollId : string) (v : Vote.t) : bool :=
  bool_decide (Vote.userId v = userId)
  && bool_decide (poll_of_option st (Vote.pollOptionId v) = Some pollId).

(** [_count: { select: { votes: true } }] of one option. *)
Definition count_votes (st : Store) (optionId : string) : Z :=
  Z.of_nat (length (filter (fun v => Vote.pollOptionId v = optionId) (votes st))).

(** The option rows of a poll, in table order. *)
Definition options_of (st : Store) (pollId : string) : list PollOption.t :=
  filter (fun o => PollOption.pollId o = pollId) (pollOptions st).

(** The rows of a query without [orderBy] come in an order of the
    store's choosing: [returned order rows] is the [order]-th
    permutation of [rows] ([rows] itself for [order = 0] and when there
    is no such permutation). *)
Definition returned {A : Type} (order : nat) (rows : list A) : list A :=
  default rows (permutations rows !! order).

(** ** Tally: the synchronous part of [_getPollResultsInternal] *)

Record OptionResult : Type := {
  id : string;
  text : string;
  voteCount : Z;
  percentage : number
}.

Record PollResults : Type := {
  pollId : string;
  question : string;
  totalVotes : Z;
  options : list OptionResult
}.

(** [totalVotes > 0 ? Math.round((votes / totalVotes) * 100) : 0].
    Row counts are integers far below 2^53, where number addition is
    exact, so they are kept in [Z]; the quotient and the product are
    binary64 operations. *)
Definition percentage_of (votes totalVotes : Z) : number :=
  if 0 <? totalVotes
  then Math_round (mul (div (of_Z votes) (of_Z totalVotes)) (of_Z 100))
  else of_Z 0.

(** Lines 120-135, on the row [results] that [poll.findUnique]
    returned: the poll and its options, each with [_count.votes]. *)
Definition tally (results : Poll.t * list (PollOption.t * Z)) : PollResults :=
  let totalVotes := fold_left (fun sum option => sum + snd option) (snd results) 0 in
  {| pollId := Poll.id (fst results);
     question := Poll.question (fst results);
     totalVotes := totalVotes;
     options :=
       map (fun option =>
              {| id := PollOption.id (fst option);
                 text := PollOption.text (fst option);
                 voteCount := snd option;
                 percentage := percentage_of (snd option) totalVotes |})
           (snd results) |}.

Definition option_json (o : OptionResult) : JSON :=
  JObj [("id", JStr (id o)); ("text", JStr (text o));
        ("voteCount", JInt (voteCount o)); ("percentage", JNum (percentage o))].

Definition results_json (r : option PollResults) : JSON :=
  match r with
  | None => JNull
  | Some r =>
      JObj [("pollId", JStr (pollId r)); ("question", JStr (question r));
            ("totalVotes", JInt (totalVotes r));
            ("options", JArr (map option_json (options r)))]
  end.

(** ** Request handlers as trees of store commands *)

Inductive Error : Type :=
| PrismaKnownRequestError (code : string)
| PrismaUnknownRequestError
| PrismaValidationError
| TypeError.

(** [error.code] *)
Definition error_code (e : Error) : option string :=
  match e with
  | PrismaKnownRequestError code => Some code
  | PrismaUnknownRequestError | PrismaValidationError | TypeError => None
  end.

Definition Result (X : Type) : Type := X + Error.

(** The calls the controller awaits, indexed by what they resolve to. *)
Inductive Cmd : Type -> Type :=
| PollOption_findUnique (id : value) : Cmd (option (PollOption.t * Poll.t))
| Vote_findFirst (userId pollId : string) : Cmd (option Vote.t)
| Vote_create (user : User.t) (pollOptionId : value)
    : Cmd (Vote.t * PollOption.t * Poll.t)
| Poll_findUnique (id : string) : Cmd (option (Poll.t * list (PollOption.t * Z))).

(** A handler: finished, thrown, waiting for a call, or about to emit
    (which is synchronous). *)
Inductive Prog (A : Type) : Type :=
| Ret (a : A)
| Throw (e : Error)
| Await {X : Type} (c : Cmd X) (k : Result X -> Prog A)
| Emit (room event : string) (payload : JSON) (k : Prog A).

Arguments Ret {A} a.
Arguments Throw {A} e.
Arguments Await {A X} c k.
Arguments Emit {A} room event payload k.

Fixpoint bind {A B : Type} (p : Prog A) (f : A -> Prog B) : Prog B :=
  match p with
  | Ret a => f a
  | Throw e => Throw e
  | Await c k => Await c (fun r => bind (k r) f)
  | Emit room event payload k => Emit room event payload (bind k f)
  end.

(** [await c]: the resolved value, or the rejection rethrown. *)
Definition await {X : Type} (c : Cmd X) : Prog X :=
  Await c (fun r => match r with inl x => Ret x | inr e => Throw e end).

(** [try { p } catch (error) { h error }] *)
Fixpoint try_catch {A : Type} (p : Prog A) (h : Error -> Prog A) : Prog A :=
  match p with
  | Ret a => Ret a
  | Throw e => h e
  | Await c k => Await c (fun r => try_catch (k r) h)
  | Emit room event payload k => Emit room event payload (try_catch k h)
  end.

(** [io.to(room).emit(event, payload)] *)
Definition io_to_emit (room event : string) (payload : JSON) : Prog unit :=
  Emit room event payload (Ret tt).

Notation "'do' x <- p ;; q" := (bind p (fun x => q))
  (at level 10, x name, p at level 99, q at level 200, only parsing).

Record Request : Type := {
  body : JSON;
  params_pollId : string;
  user : User.t
}.

Record Response : Type := { status : Z; json : JSON }.

(** [res.status(s).json(b)]; the handler returns right after. *)
Definition respond (s : Z) (b : JSON) : Prog Response :=
  Ret {| status := s; json := b |}.

Definition error_body (message : string) : JSON := JObj [("error", JStr message)].

(** *** voteController.js *)

(** Lines 102-136. *)
Definition _getPollResultsInternal (pollId : string) : Prog (option PollResults) :=
  do results <- await (Poll_findUnique pollId) ;;
  match results with
  | None => Ret None
  | Some results => Ret (Some (tally results))
  end.

Definition poll_room (pollId : string) : string := "poll-" +:+ pollId.

Definition pollUpdate (poll : Poll.t) (updatedPollResults : option PollResults) : JSON :=
  JObj [("pollId", JStr (Poll.id poll)); ("results", results_json updatedPollResults)].

(** The vote as [res.json] sends it, with its [user] and [pollOption]
    includes; the clock reading stands for the date.  The included user
    is the row that [req.user] was read from, so its id and name are
    those of [req.user]. *)
Definition vote_json (vote : Vote.t * PollOption.t * Poll.t) (user : User.t) : JSON :=
  let '(v, o, p) := vote in
  JObj [("id", JStr (Vote.id v)); ("createdAt", JInt (Vote.createdAt v));
        ("user", JObj [("id", JStr (User.id user)); ("name", JStr (User.name user))]);
        ("pollOption",
         JObj [("id", JStr (PollOption.id o)); ("text", JStr (PollOption.text o));
               ("pollId", JStr (PollOption.pollId o));
               ("poll", JObj [("id", JStr (Poll.id p));
                              ("question", JStr (Poll.question p))])])].

(** [submitVote], lines 73-87: the tally has been read. *)
Definition submitVote_emit (req : Request) (poll : Poll.t)
    (vote : Vote.t * PollOption.t * Poll.t)
    (updatedPollResults : option PollResults) : Prog Response :=
  do _ <- io_to_emit (poll_room (Poll.id poll)) "pollUpdate"
            (pollUpdate poll updatedPollResults) ;;
  respond 201 (JObj [("message", JStr "Vote submitted successfully");
                     ("vote", vote_json vote (user req))]).

(** Lines 70-87: the vote has been created. *)
Definition submitVote_created (req : Request) (poll : Poll.t)
    (vote : Vote.t * PollOption.t * Poll.t) : Prog Response :=
  do updatedPollResults <- _getPollResultsInternal (Poll.id poll) ;;
  submitVote_emit req poll vote updatedPollResults.

(** Lines 44-87: the pre-flight lookup has resolved. *)
Definition submitVote_admit (req : Request) (pollOptionId : value) (poll : Poll.t)
    (existingVoteInPoll : option Vote.t) : Prog Response :=
  match existingVoteInPoll with
  | Some _ => respond 409 (error_body "You have already voted in this poll")
  | None =>
      do vote <- await (Vote_create (user req) pollOptionId) ;;
      submitVote_created req poll vote
  end.

(** Lines 26-87: the option lookup has resolved. *)
Definition submitVote_check (req : Request) (pollOptionId : value)
    (pollOption : option (PollOption.t * Poll.t)) : Prog Response :=
  match pollOption with
  | None => respond 404 (error_body "Poll option not found")
  | Some (_, poll) =>
      if negb (Poll.isPublished poll)
      then respond 403 (error_body "Cannot vote on unpublished poll")
      else
        do existingVoteInPoll <- await (Vote_findFirst (User.id (user req)) (Poll.id poll)) ;;
        submitVote_admit req pollOptionId poll existingVoteInPoll
  end.

(** Lines 6-87: the body of the [try].  The destructuring
    [const { pollOptionId } = req.body] throws a [TypeError] when the
    body is [null]; on any other value it is a property read. *)
Definition submitVote_try (req : Request) : Prog Response :=
  match body req with
  | JNull => Throw TypeError
  | _ =>
      let pollOptionId := prop "pollOptionId" (body req) in
      if negb (truthy pollOptionId)
      then respond 400 (error_body "Poll option ID is required")
      else
        do pollOption <- await (PollOption_findUnique pollOptionId) ;;
        submitVote_check req pollOptionId pollOption
  end.

(** Lines 88-98: the [catch]. *)
Definition submitVote_catch (error : Error) : Prog Response :=
  if bool_decide (error_code error = Some "P2002")
  then respond 409 (error_body "You have already voted for this option")
  else respond 500 (error_body "Internal server error").

Definition submitVote (req : Request) : Prog Response :=
  try_catch (submitVote_try req) submitVote_catch.

(** Lines 139-154; [res.json] alone answers with status 200. *)
Definition getPollResults (req : Request) : Prog Response :=
  try_catch
    (do results <- _getPollResultsInternal (params_pollId req) ;;
     match results with
     | None => respond 404 (error_body "Poll not found")
     | Some _ => respond 200 (JObj [("results", results_json results)])
     end)
    (fun _ => respond 500 (error_body "Internal server error")).

(** ** Socket.IO rooms (the in-memory adapter: room name to socket ids)

    Only the rooms the handlers name are kept; the room Socket.IO gives
    every socket under its own id is never addressed by the
    controller. *)

Abbreviation Rooms := (gmap string (gset string)).

(** The sockets a broadcast to [room] reaches. *)
Definition members (rooms : Rooms) (room : string) : gset string :=
  default ∅ (rooms !! room).

(** [socket.join(room)] *)
Definition socket_join (sid room : string) (rooms : Rooms) : Rooms :=
  <[room := {[sid]} ∪ members rooms room]> rooms.

(** [socket.leave(room)]; a room left empty is dropped. *)
Definition socket_leave (sid room : string) (rooms : Rooms) : Rooms :=
  match rooms !! room with
  | None => rooms
  | Some s =>
      if decide (s ∖ {[sid]} = ∅) then delete room rooms
      else <[room := s ∖ {[sid]}]> rooms
  end.

(** What Socket.IO does itself when a socket closes, before the
    ['disconnect'] listeners run: the socket leaves all its rooms. *)
Definition socket_leaveAll (sid : string) (rooms : Rooms) : Rooms :=
  omap (fun s : gset string =>
          if decide (s ∖ {[sid]} = ∅) then None else Some (s ∖ {[sid]})) rooms.

(** *** socketHandlers.js *)

Inductive SocketEvent : Type :=
| joinPoll (pollId : string)
| leavePoll (pollId : string)
| disconnect.

(** The listeners [handleConnection] registers on a socket (lines
    36-50); the ['disconnect'] listener only logs. *)
Definition handleConnection (sid : string) (ev : SocketEvent) (rooms : Rooms) : Rooms :=
  match ev with
  | joinPoll pollId => socket_join sid (poll_room pollId) rooms
  | leavePoll pollId => socket_leave sid (poll_room pollId) rooms
  | disconnect => rooms
  end.

(** A socket closing: Socket.IO's cleanup, then the listener. *)
Definition socket_close (sid : string) (rooms : Rooms) : Rooms :=
  handleConnection sid disconnect (socket_leaveAll sid rooms).

(** Lines 60-63. *)
Definition getOnlineUsersInPoll (rooms : Rooms) (pollId : string) : Z :=
  match rooms !! poll_room pollId with
  | Some room => Z.of_nat (size room)
  | None => 0
  end.

(** The deliveries of [io.to(room).emit(...)]: one per member. *)
Definition recipients (rooms : Rooms) (room : string) : list string :=
  elements (members rooms room).

(** ** The server: one store, one set of rooms, many requests *)

Record World : Type := { db : Store; rooms : Rooms }.

Inductive Effect : Type :=
| Inserted (vote : Vote.t)
| Emitted (room event : string) (payload : JSON) (to : list string).

Definition insert_vote (st : Store) (userId pollOptionId : string) : Vote.t * Store :=
  let v := Vote.mk (cuid (clock st)) userId pollOptionId (Z.of_N (clock st)) in
  (v, {| users := users st; polls := polls st; pollOptions := pollOptions st;
         votes := votes st ++ [v]; clock := N.succ (clock st) |}).

(** The uniqueness constraint of the Vote table is declared in
    [prisma/schema.prisma], which is not among the sources; the server
    is parametric in it.  Two candidates follow.

    The first is modelled from the spec, not from the code: the spec
    (section 3) keys the constraint on "(voter,
    poll-derived-from-option)" and the README says "One user can vote
    only once per poll".  Row [v] collides with a new row [(userId,
    pollOptionId)] when it has the same voter and its option belongs to
    the same poll; telling so takes the option table besides the two
    rows. *)
Definition unique_voter_poll (st : Store) (userId pollOptionId : string)
    (v : Vote.t) : bool :=
  bool_decide (Vote.userId v = userId)
  && bool_decide (poll_of_option st (Vote.pollOptionId v)
                  = poll_of_option st pollOptionId).

(** The second is a key on the two foreign-key columns of the Vote
    table, (userId, pollOptionId): the columns the insert fills in
    (lines 52-55), and the collision that the handler's message for
    P2002, 'You have already voted for this option', names. *)
Definition unique_voter_option (st : Store) (userId pollOptionId : string)
    (v : Vote.t) : bool :=
  bool_decide (Vote.userId v = userId)
  && bool_decide (Vote.pollOptionId v = pollOptionId).

Section Server.

(** The Vote table's uniqueness constraint: [vote_unique st u o v]
    tells whether the existing row [v] forbids inserting [(u, o)]. *)
Variable vote_unique : Store -> string -> string -> Vote.t -> bool.

(** [prisma.vote.create]: the two foreign keys of the row (its option,
    its user), then uniqueness, then the insert. *)
Definition vote_create (st : Store) (user : User.t) (pollOptionId : value)
    : Result (Vote.t * PollOption.t * Poll.t) * Store * list Effect :=
  match pollOptionId with
  | Some (JStr optionId) =>
      match find_option st optionId with
      | None => (inr (PrismaKnownRequestError "P2003"), st, [])
      | Some o =>
          match find_poll st (PollOption.pollId o) with
          | None => (inr (PrismaKnownRequestError "P2003"), st, [])
          | Some p =>
              match find_user st (User.id user) with
              | None => (inr (PrismaKnownRequestError "P2003"), st, [])
              | Some _ =>
                  if existsb (vote_unique st (User.id user) optionId) (votes st)
                  then (inr (PrismaKnownRequestError "P2002"), st, [])
                  else
                    let '(v, st') := insert_vote st (User.id user) optionId in
                    (inl (v, o, p), st', [Inserted v])
              end
          end
      end
  | _ => (inr PrismaValidationError, st, [])
  end.

(** [prisma.pollOption.findUnique({ where: { id }, include: { poll } })] *)
Definition pollOption_findUnique (st : Store) (id : value)
    : Result (option (PollOption.t * Poll.t)) :=
  match id with
  | Some (JStr optionId) =>
      match find_option st optionId with
      | None => inl None
      | Some o =>
          match find_poll st (PollOption.pollId o) with
          | Some p => inl (Some (o, p))
          | None => inr PrismaUnknownRequestError
          end
      end
  | _ => inr PrismaValidationError
  end.

(** [prisma.poll.findUnique] with the options and their vote counts;
    the included options have no [orderBy]. *)
Definition poll_findUnique (order : nat) (st : Store) (id : string)
    : option (Poll.t * list (PollOption.t * Z)) :=
  (fun p => (p, map (fun o => (o, count_votes st (PollOption.id o)))
                    (returned order (options_of st id)))) <$> find_poll st id.

(** The store performs a call; [order] is its choice of row order for
    this call. *)
Definition exec {X : Type} (order : nat) (c : Cmd X) (w : World)
    : Result X * World * list Effect :=
  match c in Cmd X return Result X * World * list Effect with
  | PollOption_findUnique id => (pollOption_findUnique (db w) id, w, [])
  | Vote_findFirst userId pollId =>
      (inl (List.find (vote_in_poll (db w) userId pollId) (votes (db w))), w, [])
  | Vote_create user pollOptionId =>
      let '(r, st', effs) := vote_create (db w) user pollOptionId in
      (r, {| db := st'; rooms := rooms w |}, effs)
  | Poll_findUnique id => (inl (poll_findUnique order (db w) id), w, [])
  end.

(** Synchronous code that emits, up to the next [await] or the
    answer: its broadcasts go out to the members the rooms have now. *)
Fixpoint sync {A : Type} (p : Prog A) (rooms : Rooms) : Prog A * list Effect :=
  match p with
  | Emit room event payload k =>
      let '(p', effs) := sync k rooms in
      (p', Emitted room event payload (recipients rooms room) :: effs)
  | _ => (p, [])
  end.

(** One turn of a handler.  Either the store performs the call the
    handler awaits, and the handler is left with the result; or the
    handler, resumed with a result, runs its synchronous code, emitting
    to the rooms as they are by then.  Other handlers and sockets may
    take turns in between.  (Synchronous code that emits nothing has no
    turn of its own: when it runs cannot be observed.) *)
Definition step {A : Type} (order : nat) (p : Prog A) (w : World)
    : Prog A * World * list Effect :=
  match p with
  | Await c k => let '(r, w', effs) := exec order c w in (k r, w', effs)
  | Emit _ _ _ _ => let '(p', effs) := sync p (rooms w) in (p', w, effs)
  | _ => (p, w, [])
  end.

(** A handler run alone, with no other request in between (it reads
    the options of a poll at most once, so one [order] will do). *)
Fixpoint run {A : Type} (order : nat) (fuel : nat) (p : Prog A) (w : World)
    : Prog A * World * list Effect :=
  match fuel with
  | O => (p, w, [])
  | S fuel =>
      match p with
      | Ret _ | Throw _ => (p, w, [])
      | _ =>
          let '(p', w', effs) := step order p w in
          let '(p'', w'', effs') := run order fuel p' w' in
          (p'', w'', effs ++ effs')
      end
  end.

Definition result {A : Type} (p : Prog A) : option A :=
  match p with
  | Ret a => Some a
  | _ => None
  end.

(** Handlers in flight, the shared world, and what each did so far. *)
Record System : Type := {
  world : World;
  procs : list (Prog Response);
  trace : list (nat * Effect)
}.

(** What happens next: a turn of handler [pid], in which the store
    orders its rows by [order]; an event of a socket; a socket
    closing.  The polls, options and users are written by other
    controllers, which this server does not run. *)
Inductive Action : Type :=
| Turn (pid : nat) (order : nat)
| Socket (sid : string) (ev : SocketEvent)
| Close (sid : string).

Definition with_rooms (f : Rooms -> Rooms) (s : System) : System :=
  {| world := {| db := db (world s); rooms := f (rooms (world s)) |};
     procs := procs s; trace := trace s |}.

Definition sys_step (s : System) (a : Action) : System :=
  match a with
  | Turn pid order =>
      match procs s !! pid with
      | None => s
      | Some p =>
          let '(p', w', effs) := step order p (world s) in
          {| world := w'; procs := <[pid := p']> (procs s);
             trace := trace s ++ map (pair pid) effs |}
      end
  | Socket sid ev => with_rooms (handleConnection sid ev) s
  | Close sid => with_rooms (socket_close sid) s
  end.

Definition sys_run (schedule : list Action) (s : System) : System :=
  fold_left sys_step schedule s.

Definition serve (w : World) (requests : list Request) : System :=
  {| world := w; procs := map submitVote requests; trace := [] |}.

(** What handler [pid] did. *)
Definition effects_of (pid : nat) (s : System) : list Effect :=
  snd <$> filter (fun e => fst e = pid) (trace s).

End Server.

(** ** Where a [submitVote] handler stands *)

(** The continuation of an [await] inside the [try] of [submitVote]. *)
Definition resume {X : Type} (r : Result X) (k : X -> Prog Response) : Prog Response :=
  try_catch (do x <- match r with inl x => Ret x | inr e => Throw e end ;; k x)
            submitVote_catch.

(** Users, polls and options are not written by the vote controller. *)
Definition same_tables (st st0 : Store) : Prop :=
  users st = users st0 /\ polls st = polls st0 /\ pollOptions st = pollOptions st0.

(** Vote [v] is one that the handler of [req] may create. *)
Definition admits (st0 : Store) (req : Request) (o : PollOption.t) (poll : Poll.t)
    (v : Vote.t) : Prop :=
  prop "pollOptionId" (body req) = Some (JStr (Vote.pollOptionId v))
  /\ find_option st0 (Vote.pollOptionId v) = Some o
  /\ find_poll st0 (PollOption.pollId o) = Some poll
  /\ Poll.isPublished poll = true
  /\ Vote.userId v = User.id (user req).

Definition answer_201 (req : Request) (vote : Vote.t * PollOption.t * Poll.t) : Response :=
  {| status := 201;
     json := JObj [("message", JStr "Vote submitted successfully");
                   ("vote", vote_json vote (user req))] |}.

(** [phase st0 req p effs]: [p] is what is left of [submitVote req]
    after some turns, and [effs] is what those turns did. *)
Inductive phase (st0 : Store) (req : Request) : Prog Response -> list Effect -> Prop :=
| phase_start :
    phase st0 req (submitVote req) []
| phase_looked_up :
    phase st0 req
      (resume (pollOption_findUnique st0 (prop "pollOptionId" (body req)))
              (submitVote_check req (prop "pollOptionId" (body req)))) []
| phase_preflight oid o poll existing :
    prop "pollOptionId" (body req) = Some (JStr oid) ->
    find_option st0 oid = Some o ->
    find_poll st0 (PollOption.pollId o) = Some poll ->
    Poll.isPublished poll = true ->
    phase st0 req
      (try_catch (submitVote_admit req (Some (JStr oid)) poll existing)
                 submitVote_catch) []
| phase_refused code :
    phase st0 req (submitVote_catch (PrismaKnownRequestError code)) []
| phase_created o poll v :
    admits st0 req o poll v ->
    phase st0 req
      (try_catch (submitVote_created req poll (v, o, poll)) submitVote_catch)
      [Inserted v]
| phase_tallied o poll v st order :
    admits st0 req o poll v ->
    same_tables st st0 -> v ∈ votes st ->
    phase st0 req
      (Emit (poll_room (Poll.id poll)) "pollUpdate"
         (pollUpdate poll (tally <$> poll_findUnique order st (Poll.id poll)))
         (Ret (answer_201 req (v, o, poll))))
      [Inserted v]
| phase_answered o poll v st order to :
    admits st0 req o poll v ->
    same_tables st st0 -> v ∈ votes st ->
    phase st0 req (Ret (answer_201 req (v, o, poll)))
      [Inserted v;
       Emitted (poll_room (Poll.id poll)) "pollUpdate"
         (pollUpdate poll (tally <$> poll_findUnique order st (Poll.id poll))) to].

(** The votes a list of effects inserted. *)
Definition inserted (effs : list Effect) : list Vote.t :=
  omap (fun e => match e with Inserted v => Some v | _ => None end) effs.

(** The invariant of a server that runs [submitVote] for [requests]
    over a store whose users, polls and options are those of [st0]: the vote
    table is [st0]'s plus the inserts of the trace, and every handler is
    in the phase its own effects say. *)
Definition well_phased (st0 : Store) (requests : list Request) (s : System) : Prop :=
  same_tables (db (world s)) st0
  /\ votes (db (world s)) = votes st0 ++ inserted (snd <$> trace s)
  /\ (forall pid e, (pid, e) ∈ trace s -> is_Some (procs s !! pid))
  /\ forall pid p, procs s !! pid = Some p ->
       exists req, requests !! pid = Some req
                   /\ phase st0 req p (effects_of pid s).

(** All branches of a handler return within [n] turns. *)
Inductive finishes : nat -> Prog Response -> Prop :=
| finishes_Ret n r : finishes n (Ret r)
| finishes_Await n {X : Type} (c : Cmd X) (k : Result X -> Prog Response) :
    (forall r, finishes n (k r)) -> finishes (S n) (Await c k)
| finishes_Emit n room event payload k :
    finishes n k -> finishes (S n) (Emit room event payload k).

(** The turns a schedule gives to handler [pid]. *)
Definition is_turn (pid : nat) (a : Action) : bool :=
  match a with
  | Turn q _ => bool_decide (q = pid)
  | _ => false
  end.

Definition turns (pid : nat) (schedule : list Action) : nat :=
  length (List.filter (is_turn pid) schedule).

(** The uniqueness constraint covers (voter, poll): a row of the same
    voter for an option of the same poll collides. *)
Definition unique_per_voter_and_poll
    (vote_unique : Store -> string -> string -> Vote.t -> bool) : Prop :=
  forall st userId pollOptionId v P,
    Vote.userId v = userId ->
    poll_of_option st (Vote.pollOptionId v) = Some P ->
    poll_of_option st pollOptionId = Some P ->
    vote_unique st userId pollOptionId v = true.

(** The uniqueness constraint covers no more than (voter, poll). *)
Definition unique_only_voter_and_poll
    (vote_unique : Store -> string -> string -> Vote.t -> bool) : Prop :=
  forall st userId pollOptionId v,
    vote_unique st userId pollOptionId v = true ->
    Vote.userId v = userId
    /\ poll_of_option st (Vote.pollOptionId v) = poll_of_option st pollOptionId.

(** The uniqueness constraint is no stronger than a key on the two
    foreign-key columns of the Vote table, the only columns the insert
    of [submitVote] fills in (lines 52-55). *)
Definition unique_at_most_voter_and_option
    (vote_unique : Store -> string -> string -> Vote.t -> bool) : Prop :=
  forall st userId pollOptionId v,
    vote_unique st userId pollOptionId v = true ->
    Vote.userId v = userId /\ Vote.pollOptionId v = pollOptionId.

(** The uniqueness constraint is a key over columns of the Vote table:
    whether a new row collides with a row is decided by the two rows,
    whatever the other tables hold. *)
Definition column_key
    (vote_unique : Store -> string -> string -> Vote.t -> bool) : Prop :=
  forall st st' userId pollOptionId v,
    vote_unique st userId pollOptionId v = vote_unique st' userId pollOptionId v.

(** Voter [V] has no vote in poll [P]. *)
Definition not_voted (st : Store) (V P : string) : Prop :=
  forall v, v ∈ votes st -> Vote.userId v = V ->
            poll_of_option st (Vote.pollOptionId v) <> Some P.

(** ** The caller's votes

    [getUserVotes] (voteController.js, lines 157-184) awaits one query
    and answers with its rows, so its answer is a function of the store
    at that moment. *)

(** [include: { pollOption: { include: { poll } } }] for one vote.
    Both relations are required, so a vote without its option, or an
    option without its poll, is an inconsistent result that the client
    raises as an error. *)
Definition include_pollOption (st : Store) (v : Vote.t)
    : Result (Vote.t * PollOption.t * Poll.t) :=
  match find_option st (Vote.pollOptionId v) with
  | None => inr PrismaUnknownRequestError
  | Some o =>
      match find_poll st (PollOption.pollId o) with
      | None => inr PrismaUnknownRequestError
      | Some p => inl (v, o, p)
      end
  end.

(** [orderBy: { createdAt: 'desc' }]: row [a] may come before [b]. *)
Definition newer (a b : Vote.t) : Prop := Vote.createdAt b <= Vote.createdAt a.

#[global] Instance newer_dec : RelDecision newer :=
  fun a b => decide (Vote.createdAt b <= Vote.createdAt a).

(** The rows of a query with their includes, or the first error. *)
Fixpoint traverse {A B : Type} (f : A -> Result B) (l : list A) : Result (list B) :=
  match l with
  | [] => inl []
  | x :: l =>
      match f x with
      | inr e => inr e
      | inl y =>
          match traverse f l with
          | inr e => inr e
          | inl ys => inl (y :: ys)
          end
      end
  end.

(** [prisma.vote.findMany({ where: { userId }, include, orderBy })] *)
Definition vote_findMany (st : Store) (userId : string)
    : Result (list (Vote.t * PollOption.t * Poll.t)) :=
  traverse (include_pollOption st)
    (merge_sort newer (filter (fun v => Vote.userId v = userId) (votes st))).

(** A vote row as [res.json] sends it: the columns of the Vote table
    (README, "Vote Model"), then the included option with its poll. *)
Definition user_vote_json (vote : Vote.t * PollOption.t * Poll.t) : JSON :=
  let '(v, o, p) := vote in
  JObj [("id", JStr (Vote.id v)); ("userId", JStr (Vote.userId v));
        ("pollOptionId", JStr (Vote.pollOptionId v));
        ("createdAt", JInt (Vote.createdAt v));
        ("pollOption",
         JObj [("id", JStr (PollOption.id o)); ("text", JStr (PollOption.text o));
               ("pollId", JStr (PollOption.pollId o));
               ("poll", JObj [("id", JStr (Poll.id p));
                              ("question", JStr (Poll.question p));
                              ("isPublished", JBool (Poll.isPublished p))])])].

Definition getUserVotes (st : Store) (req : Request) : Response :=
  match vote_findMany st (User.id (user req)) with
  | inl votes =>
      {| status := 200; json := JObj [("votes", JArr (map user_vote_json votes))] |}
  | inr _ => {| status := 500; json := error_body "Internal server error" |}
  end.

(** The foreign keys of the store: every option belongs to a poll of
    the store and every vote is for an option of the store. *)
Definition foreign_keys (st : Store) : Prop :=
  (forall o, o ∈ pollOptions st -> is_Some (find_poll st (PollOption.pollId o)))
  /\ (forall v, v ∈ votes st -> is_Some (find_option st (Vote.pollOptionId v))).

(** The vote of a row with its includes. *)
Definition row_vote (row : Vote.t * PollOption.t * Poll.t) : Vote.t := row.1.1.

(** ** Votes and tallies *)

(** The primary key of the PollOption table. *)
Definition unique_option_ids (st : Store) : Prop :=
  NoDup (PollOption.id <$> pollOptions st).

(** The votes cast in a poll. *)
Definition votes_of_poll (st : Store) (pollId : string) : list Vote.t :=
  filter (fun v => poll_of_option st (Vote.pollOptionId v) = Some pollId) (votes st).

(** The world after [voter]'s vote for [pollOptionId] went in. *)
Definition voted (w : World) (voter : User.t) (pollOptionId : string) : World :=
  {| db := (insert_vote (db w) (User.id voter) pollOptionId).2; rooms := rooms w |}.

(** ** Socket connections

    [authenticateSocket] (socketHandlers.js, lines 5-29) is the
    middleware of the Socket.IO server and [handleConnection] its
    connection listener (server.js, lines 93-94): a socket is connected,
    gets its listeners and is greeted only when the middleware calls
    [next()] without an error. *)

(** [select: { id: true, name: true, email: true }] *)
Definition select_user (a : Account.t) : JSON :=
  JObj [("id", JStr (Account.id a)); ("name", JStr (Account.name a));
        ("email", JStr (Account.email a))].

(** [prisma.user.findUnique({ where: { id }, select })] *)
Definition user_findUnique (users : list Account.t) (id : value)
    : Result (option JSON) :=
  match id with
  | Some (JStr userId) =>
      inl (select_user
             <$> List.find (fun a => bool_decide (Account.id a = userId)) users)
  | _ => inr PrismaValidationError
  end.

(** The payload of the ['connected'] event (lines 52-56). *)
Definition connected (user : JSON) : JSON :=
  JObj [("message", JStr "Connected to real-time polling server"); ("user", user)].

(** The Socket.IO server: the connected sockets with their
    [socket.user], the rooms of the adapter, what [socket.emit] sent
    (socket id, event, payload), and the number of the next socket. *)
Record Io : Type := {
  sockets : gmap string JSON;
  adapter : Rooms;
  sent : list (string * string * JSON);
  issued : N
}.

Definition socket_id (n : N) : string := "s" +:+ pretty n.

(** What clients do: open a connection with a handshake [auth] object
    at time [now], send an event on a socket, close a socket. *)
Inductive ClientAction : Type :=
| Connect (now : Z) (auth : JSON)
| Send (sid : string) (ev : SocketEvent)
| Drop (sid : string).

Section Sockets.

(** [jwt.verify(token, process.env.JWT_SECRET)] at time [now]: the
    decoded payload, or [None] when it throws (bad signature, expired,
    malformed, no secret). *)
Variable jwt_verify : Z -> string -> option JSON.

(** Lines 5-29: the user to attach to the socket, or the message of
    the error passed to [next]. *)
Definition authenticateSocket (users : list Account.t) (now : Z) (auth : JSON)
    : JSON + string :=
  let token := prop "token" auth in
  if negb (truthy token) then inr "Authentication error"
  else
    match match token with
          | Some (JStr t) => jwt_verify now t
          | _ => None
          end with
    | None => inr "Authentication error"
    | Some decoded =>
        match user_findUnique users (prop "userId" decoded) with
        | inr _ => inr "Authentication error"
        | inl None => inr "User not found"
        | inl (Some user) => inl user
        end
    end.

(** [io.use(authenticateSocket); io.on('connection', handleConnection)]:
    events of sockets that are not connected reach no listener. *)
Definition io_step (users : list Account.t) (io : Io) (a : ClientAction) : Io :=
  match a with
  | Connect now auth =>
      match authenticateSocket users now auth with
      | inl user =>
          {| sockets := <[socket_id (issued io) := user]> (sockets io);
             adapter := adapter io;
             sent := sent io ++ [(socket_id (issued io), "connected", connected user)];
             issued := N.succ (issued io) |}
      | inr _ =>
          {| sockets := sockets io; adapter := adapter io; sent := sent io;
             issued := N.succ (issued io) |}
      end
  | Send sid ev =>
      if decide (is_Some (sockets io !! sid))
      then {| sockets := sockets io; adapter := handleConnection sid ev (adapter io);
              sent := sent io; issued := issued io |}
      else io
  | Drop sid =>
      if decide (is_Some (sockets io !! sid))
      then {| sockets := delete sid (sockets io);
              adapter := socket_close sid (adapter io);
              sent := sent io; issued := issued io |}
      else io
  end.

Definition io_run (users : list Account.t) (actions : list ClientAction) (io : Io) : Io :=
  fold_left (io_step users) actions io.

End Sockets.

(** A server nobody has connected to. *)
Definition io_start : Io :=
  {| sockets := ∅; adapter := ∅; sent := []; issued := 0 |}.

(** Every socket in a room is connected, every connected socket
    carries the selected columns of a user row, and every message sent
    greets such a user. *)
Definition authenticated (users : list Account.t) (io : Io) : Prop :=
  (forall room sid, sid ∈ members (adapter io) room -> is_Some (sockets io !! sid))
  /\ (forall sid user, sockets io !! sid = Some user ->
        exists a, a ∈ users /\ user = select_user a)
  /\ (forall sid event payload, (sid, event, payload) ∈ sent io ->
        event = "connected"
        /\ exists a, a ∈ users /\ payload = connected (select_user a)).

(** ** Rooms over time *)

(** The adapter keeps no empty room: a room exists while somebody is
    in it. *)
Definition no_empty_room (rooms : Rooms) : Prop :=
  forall room s, rooms !! room = Some s -> s <> ∅.

(** ** Scenarios (after [prisma/seed.js]) *)

Definition bob : User.t := User.mk "u2" "Bob Smith".
Definition carol : User.t := User.mk "u3" "Carol Wilson".

(** Three users; a published poll of Alice with three options, an
    unpublished poll of Carol with two, and Bob's vote for the first
    option. *)
Definition accounts : list Account.t :=
  [Account.mk "u1" "Alice Johnson" "alice@example.com" "h1" 0 0;
   Account.mk "u2" "Bob Smith" "bob@example.com" "h2" 0 0;
   Account.mk "u3" "Carol Wilson" "carol@example.com" "h3" 0 0].

Definition seed : Store := {|
  users := accounts;
  polls := [Poll.mk "p1" "What is your favorite programming language?" true "u1";
            Poll.mk "p3" "What is the best time for team meetings?" false "u3"];
  pollOptions := [PollOption.mk "o1" "JavaScript" "p1";
                  PollOption.mk "o2" "Python" "p1";
                  PollOption.mk "o3" "Java" "p1";
                  PollOption.mk "o7" "Morning (9-11 AM)" "p3";
                  PollOption.mk "o8" "Afternoon (2-4 PM)" "p3"];
  votes := [Vote.mk "v1" "u2" "o1" 0];
  clock := 1
|}.

(** Two sockets watch the first poll. *)
Definition seed_world : World :=
  {| db := seed;
     rooms := socket_join "s2" (poll_room "p1") (socket_join "s1" (poll_room "p1") ∅) |}.

Definition vote_request (voter : User.t) (pollOptionId : string) : Request :=
  {| body := JObj [("pollOptionId", JStr pollOptionId)];
     params_pollId := ""; user := voter |}.

Definition results_request (caller : User.t) (pollId : string) : Request :=
  {| body := JObj []; params_pollId := pollId; user := caller |}.

(** The spec's formula for a percentage, [round(100 * count / total)],
    on exact rationals with ties upwards (as [Math.round] breaks them). *)
Definition spec_percentage (count total : Z) : Z :=
  (200 * count + total) / (2 * total).

(** The pairs (count, total) with [0 <= count <= total <= n] and
    [1 <= total] at which the reported percentage is not the spec's. *)
Definition deviates (count total : Z) : bool :=
  negb (SFeqb (percentage_of count total) (of_Z (spec_percentage count total))).

Definition deviations (n : nat) : list (Z * Z) :=
  List.filter (fun ct => deviates (fst ct) (snd ct))
    (total ← seq 1 n; count ← seq 0 (S total); [(Z.of_nat count, Z.of_nat total)]).

(** [n] votes for one option, by voters numbered from [first]. *)
Definition ballots (first n : nat) (pollOptionId : string) : list Vote.t :=
  map (fun i => Vote.mk (cuid (N.of_nat i)) ("voter" +:+ pretty i) pollOptionId
                        (Z.of_nat i))
      (seq first n).

(** Forty votes on a poll with two options, 23 against 17. *)
Definition poll_23_17 : Store := {|
  users := map (fun i => Account.mk ("voter" +:+ pretty i) "" "" "" 0 0) (seq 0 40);
  polls := [Poll.mk "p" "Tabs or spaces?" true "u1"];
  pollOptions := [PollOption.mk "a" "Tabs" "p"; PollOption.mk "b" "Spaces" "p"];
  votes := ballots 0 23 "a" ++ ballots 23 17 "b";
  clock := 40
|}.

(** Carol sends three votes for the first poll at once.  The first
    two handlers look up their option and pass the pre-flight check
    before either inserts; the third starts after the first insert. *)
Definition carol_requests : list Request :=
  [vote_request carol "o1"; vote_request carol "o2"; vote_request carol "o3"].

Definition race : list Action :=
  [Turn 0 0; Turn 1 0; Turn 0 0; Turn 1 0; Turn 0 0; Turn 1 0; Turn 2 0; Turn 2 0;
   Turn 0 0; Turn 0 0]%nat.

(** Carol sends two votes for the first poll at once, for two
    options, and the two handlers take their turns in lockstep. *)
Definition carol_twice : list Request :=
  [vote_request carol "o1"; vote_request carol "o2"].

Definition lockstep : list Action :=
  [Turn 0 0; Turn 1 0; Turn 0 0; Turn 1 0; Turn 0 0; Turn 1 0; Turn 0 0; Turn 1 0;
   Turn 0 0; Turn 1 0]%nat.

(** What Carol's vote for the second option makes the server
    broadcast: one vote each for the first two options of three. *)
Definition two_votes_payload : JSON :=
  JObj [("pollId", JStr "p1");
        ("results",
         JObj [("pollId", JStr "p1");
               ("question", JStr "What is your favorite programming language?");
               ("totalVotes", JInt 2);
               ("options",
                JArr [JObj [("id", JStr "o1"); ("text", JStr "JavaScript");
                            ("voteCount", JInt 1); ("percentage", JInt 50)];
                      JObj [("id", JStr "o2"); ("text", JStr "Python");
                            ("voteCount", JInt 1); ("percentage", JInt 50)];
                      JObj [("id", JStr "o3"); ("text", JStr "Java");
                            ("voteCount", JInt 0); ("percentage", JInt 0)]])])].

(** One handler takes its five turns; the store returns its rows in
    table order. *)
Definition alone : list Action :=
  [Turn 0 0; Turn 0 0; Turn 0 0; Turn 0 0; Turn 0 0]%nat.



(** A token service that accepts one token for Carol until time 100,
    and a handshake with that token. *)
Definition one_token (now : Z) (token : string) : option JSON :=
  if bool_decide (token = "carol-token") && (now <? 100)
  then Some (JObj [("userId", JStr "u3"); ("iat", JInt 0); ("exp", JInt 100)])
  else None.

Definition carol_handshake : JSON := JObj [("token", JStr "carol-token")].

(** ** Proof steps that recur *)

(** The result of a command that did nothing. *)
Ltac unchanged := intros [= <- <- <-]; cbn; by rewrite ?app_nil_r.
Ltac no_effect := let Hin := fresh in
  intros [= <- <- <-] Hin; by apply elem_of_nil in Hin.

(** * Properties *)

(** ** Store lookups *)

Lemma find_poll_id st id p : find_poll st id = Some p -> Poll.id p = id.
Proof.
  unfold find_poll. intros H. apply find_some in H as [_ H].
  by apply bool_decide_eq_true in H.
Qed.

Lemma truthy_id (s : string) : s <> "" -> truthy (Some (JStr s)) = true.
Proof. intros H. cbn. by rewrite bool_decide_false. Qed.

(** ** A request without an option id *)




(** ** The order of the admission checks *)

Lemma submitVote_unfold (req : Request) (oid : string) :
  prop "pollOptionId" (body req) = Some (JStr oid) -> oid <> "" ->
  submitVote req
  = Await (PollOption_findUnique (Some (JStr oid)))
      (fun r => try_catch
                  (do pollOption <- match r with inl x => Ret x | inr e => Throw e end ;;
                   submitVote_check req (Some (JStr oid)) pollOption)
                  submitVote_catch).
Proof.
  intros H Hne. unfold submitVote, submitVote_try.
  destruct (body req); try discriminate H; by rewrite H, truthy_id.
Qed.

Lemma find_vote_in_poll st userId pollId v :
  v ∈ votes st -> Vote.userId v = userId ->
  poll_of_option st (Vote.pollOptionId v) = Some pollId ->
  is_Some (List.find (vote_in_poll st userId pollId) (votes st)).
Proof.
  intros Hin Hu Hp.
  destruct (List.find _ _) eqn:Hfind; [by eexists|].
  apply list_elem_of_In in Hin.
  pose proof (find_none _ _ Hfind _ Hin) as Hv.
  unfold vote_in_poll in Hv.
  rewrite !bool_decide_true in Hv by done. done.
Qed.

(** C2, for a string id: for a request whose [pollOptionId] is a
    non-empty string, [submitVote] answers 404 when no option has that
    id; 403 when the option exists and its poll is unpublished, whoever
    the voter is (the owner included) and whatever votes exist; 409 when
    the poll is published and the voter already has a vote for an option
    of that poll.  Each rejection leaves the world as it was and emits
    nothing. *)
Theorem submitVote_rejections vu (order : nat) (req : Request) (w : World)
    (oid : string) :
  prop "pollOptionId" (body req) = Some (JStr oid) -> oid <> "" ->
  (find_option (db w) oid = None ->
   run vu order 4 (submitVote req) w
   = (respond 404 (error_body "Poll option not found"), w, []))
  /\ (forall o p,
       find_option (db w) oid = Some o ->
       find_poll (db w) (PollOption.pollId o) = Some p ->
       Poll.isPublished p = false ->
       run vu order 4 (submitVote req) w
       = (respond 403 (error_body "Cannot vote on unpublished poll"), w, []))
  /\ (forall o p v,
       find_option (db w) oid = Some o ->
       find_poll (db w) (PollOption.pollId o) = Some p ->
       Poll.isPublished p = true ->
       v ∈ votes (db w) ->
       Vote.userId v = User.id (user req) ->
       poll_of_option (db w) (Vote.pollOptionId v) = Some (Poll.id p) ->
       run vu order 4 (submitVote req) w
       = (respond 409 (error_body "You have already voted in this poll"), w, [])).
Proof.
  intros Hid Hne. rewrite (submitVote_unfold req oid Hid Hne).
  split; [|split].
  - intros Hnone. cbn. unfold pollOption_findUnique. rewrite Hnone. reflexivity.
  - intros o p Ho Hp Hpub. cbn. unfold pollOption_findUnique. rewrite Ho, Hp.
    cbn. rewrite Hpub. reflexivity.
  - intros o p v Ho Hp Hpub Hin Hu Hv. cbn.
    unfold pollOption_findUnique. rewrite Ho, Hp. cbn. rewrite Hpub. cbn.
    destruct (find_vote_in_poll _ _ _ _ Hin Hu Hv) as [v' ->]. reflexivity.
Qed.

Lemma submitVote_rejections_witness :
  run unique_voter_option 0 4 (submitVote (vote_request carol "o7")) seed_world
  = (respond 403 (error_body "Cannot vote on unpublished poll"), seed_world, []).
Proof.
  refine (proj1 (proj2 (submitVote_rejections unique_voter_option 0
            (vote_request carol "o7") seed_world "o7" eq_refl _)) _ _ eq_refl eq_refl eq_refl).
  discriminate.
Defined.

(** An id that is truthy but not a string (a number other than 0,
    [true], an array, an object) is refused by the store's own
    validation, and the [catch] turns that into a 500. *)
Lemma submitVote_malformed_id vu (order : nat) (w : World) (voter : User.t)
    (id : JSON) :
  truthy (Some id) = true -> (forall oid, id <> JStr oid) ->
  run vu order 4 (submitVote {| body := JObj [("pollOptionId", id)];
                                params_pollId := ""; user := voter |}) w
  = (respond 500 (error_body "Internal server error"), w, []).
Proof.
  intros Htruthy Hid.
  assert (Hstart : submitVote {| body := JObj [("pollOptionId", id)];
                                 params_pollId := ""; user := voter |}
                   = Await (PollOption_findUnique (Some id))
                       (fun r => resume r (submitVote_check
                                   {| body := JObj [("pollOptionId", id)];
                                      params_pollId := ""; user := voter |} (Some id)))).
  { unfold submitVote, submitVote_try. cbn [body].
    change (prop "pollOptionId" (JObj [("pollOptionId", id)])) with (Some id).
    by rewrite Htruthy. }
  rewrite Hstart. destruct id; try done. by destruct (Hid s).
Qed.

(** C2 as stated fails for an id that is not a string: the id 7 names
    no option (the ids of the option table are strings), and the answer
    is 500, not 404. *)
Lemma submitVote_number_id :
  truthy (Some (JInt 7)) = true
  /\ Forall (fun o => JStr (PollOption.id o) <> JInt 7) (pollOptions seed)
  /\ run unique_voter_option 0 4
       (submitVote {| body := JObj [("pollOptionId", JInt 7)]; params_pollId := "";
                      user := carol |}) seed_world
     = (respond 500 (error_body "Internal server error"), seed_world, []).
Proof. split; [reflexivity|]. split; [by repeat constructor|reflexivity]. Qed.

(** ** The tally *)

Lemma fold_left_counts (options : list (PollOption.t * Z)) (a : Z) :
  fold_left (fun sum option => sum + snd option) options a
  = a + foldr Z.add 0 (snd <$> options).
Proof.
  revert a. induction options as [|o options IH]; intros a; cbn.
  - lia.
  - rewrite IH. lia.
Qed.

(** The total is the sum of the counts. *)
Lemma tally_total (poll : Poll.t) (counted : list (PollOption.t * Z)) :
  totalVotes (tally (poll, counted)) = foldr Z.add 0 (snd <$> counted).
Proof. unfold tally. cbn. by rewrite fold_left_counts. Qed.

(** One result per option, in the order of the options, each with its
    own count and a percentage that depends on that count and the total
    only. *)
Lemma tally_options (poll : Poll.t) (counted : list (PollOption.t * Z)) :
  options (tally (poll, counted))
  = map (fun o => {| id := PollOption.id (fst o); text := PollOption.text (fst o);
                     voteCount := snd o;
                     percentage :=
                       percentage_of (snd o) (foldr Z.add 0 (snd <$> counted)) |})
        counted.
Proof. unfold tally. cbn. by rewrite fold_left_counts. Qed.

(** A poll without votes reports 0 for every option. *)
Lemma tally_no_votes (poll : Poll.t) (counted : list (PollOption.t * Z)) :
  totalVotes (tally (poll, counted)) = 0 ->
  Forall (fun o => percentage o = of_Z 0) (options (tally (poll, counted))).
Proof.
  intros H0. rewrite tally_options. rewrite tally_total in H0. rewrite H0.
  apply Forall_forall. intros o Hin. apply list_elem_of_In, in_map_iff in Hin.
  destruct Hin as (x & <- & _). reflexivity.
Qed.

(** Counts 1/1/1 are reported as 33, 33, 33. *)
Lemma tally_thirds (poll : Poll.t) (a b c : PollOption.t) :
  percentage <$> options (tally (poll, [(a, 1); (b, 1); (c, 1)]))
  = [of_Z 33; of_Z 33; of_Z 33].
Proof. reflexivity. Qed.

(** The end-to-end scenario of the spec: one vote each for the first
    two of three options. *)
Lemma tally_two_of_three (poll : Poll.t) (a b c : PollOption.t) :
  totalVotes (tally (poll, [(a, 1); (b, 1); (c, 0)])) = 2
  /\ percentage <$> options (tally (poll, [(a, 1); (b, 1); (c, 0)]))
     = [of_Z 50; of_Z 50; of_Z 0].
Proof. split; reflexivity. Qed.

(** Up to a hundred votes, the reported percentage is the spec's
    [round(100 * count / total)] except for 23 of 40 and 46 of 80. *)
Lemma percentage_deviations_100 : deviations 100 = [(23, 40); (46, 80)].
Proof. vm_compute. reflexivity. Qed.

Lemma run_getPollResultsInternal vu (order : nat) (w : World) (pollId : string) :
  run vu order 4 (_getPollResultsInternal pollId) w
  = (Ret (tally <$> poll_findUnique order (db w) pollId), w, []).
Proof. cbn. by destruct (poll_findUnique order (db w) pollId). Qed.

(** C3, at 23 votes of 40: the exact percentage is 57.5 and the
    spec's [round(100 * count / total)] is 58, also when evaluated in
    binary64 in that order; the tally reports 57, because the quotient
    23/40 is rounded to binary64 before it is multiplied by 100 and the
    product falls below 57.5.  (The other option, 17 of 40, is reported
    as 43, so the two add up to 100.)  The two options come in the
    order in which the store returns them. *)
Theorem tally_tie_23_of_40 vu (order : nat) (rooms : Rooms) :
  (run vu order 4 (_getPollResultsInternal "p") {| db := poll_23_17; rooms := rooms |}).1.1
  = Ret (Some {| pollId := "p"; question := "Tabs or spaces?"; totalVotes := 40;
                 options :=
                   returned order
                     [ {| id := "a"; text := "Tabs"; voteCount := 23;
                          percentage := of_Z 57 |};
                       {| id := "b"; text := "Spaces"; voteCount := 17;
                          percentage := of_Z 43 |} ] |})
  /\ spec_percentage 23 40 = 58
  /\ Math_round (div (mul (of_Z 100) (of_Z 23)) (of_Z 40)) = of_Z 58
  /\ of_Z 57 <> of_Z 58.
Proof.
  split; [|split; [|split]].
  - rewrite run_getPollResultsInternal.
    destruct order as [|[|order]]; vm_compute; reflexivity.
  - reflexivity.
  - vm_compute. reflexivity.
  - vm_compute. discriminate.
Qed.

(** ** The results query *)

Lemma returned_Permutation {A : Type} (order : nat) (rows : list A) :
  returned order rows ≡ₚ rows.
Proof.
  unfold returned. destruct (permutations rows !! order) as [l|] eqn:Hl; [|done].
  symmetry. apply permutations_Permutation. by eapply list_elem_of_lookup_2.
Qed.

Lemma find_poll_None (st : Store) (id : string) :
  (forall p, p ∈ polls st -> Poll.id p <> id) -> find_poll st id = None.
Proof.
  intros Hnone. unfold find_poll.
  destruct (List.find _ _) as [p|] eqn:Hfind; [|done].
  apply find_some in Hfind as [Hin Hid]. apply bool_decide_eq_true in Hid.
  by destruct (Hnone p (proj2 (list_elem_of_In _ _) Hin)).
Qed.

Lemma find_poll_NoDup (st : Store) (poll : Poll.t) :
  NoDup (Poll.id <$> polls st) -> poll ∈ polls st ->
  find_poll st (Poll.id poll) = Some poll.
Proof.
  unfold find_poll. induction (polls st) as [|p l IH]; intros Hnd Hin;
    [by apply elem_of_nil in Hin|].
  rewrite fmap_cons in Hnd. apply NoDup_cons in Hnd as [Hp Hnd]. cbn.
  apply elem_of_cons in Hin as [->|Hin]; [by rewrite bool_decide_true|].
  rewrite bool_decide_false; [by apply IH|].
  intros Heq. apply Hp. rewrite Heq. apply list_elem_of_fmap. by exists poll.
Qed.

(** C10: for a poll that the poll table holds under the id named in
    the route, published or not and whoever asks, [getPollResults]
    answers 200 with [{results: {pollId, question, totalVotes,
    options}}]: one entry for every option row of the poll, in the
    order in which the store returned the rows, with the number of vote
    rows for that option and the percentage of that number in their sum,
    which is the total.  When the poll table holds no poll under the id,
    the answer is 404.  The answer depends on the request through the
    poll id only; the world is left as it was and nothing is emitted. *)
Theorem getPollResults_any_poll vu (order : nat) (req : Request) (w : World) :
  ((forall p, p ∈ polls (db w) -> Poll.id p <> params_pollId req) ->
   run vu order 4 (getPollResults req) w
   = (Ret {| status := 404; json := JObj [("error", JStr "Poll not found")] |}, w, []))
  /\ (forall poll,
        NoDup (Poll.id <$> polls (db w)) ->
        poll ∈ polls (db w) -> Poll.id poll = params_pollId req ->
        let rows :=
          returned order
            (filter (fun o => PollOption.pollId o = Poll.id poll) (pollOptions (db w))) in
        let count o :=
          Z.of_nat (length (filter (fun v => Vote.pollOptionId v = PollOption.id o)
                                   (votes (db w)))) in
        let total := foldr Z.add 0 (count <$> rows) in
        run vu order 4 (getPollResults req) w
        = (Ret {| status := 200;
                  json :=
                    JObj [("results",
                           JObj [("pollId", JStr (Poll.id poll));
                                 ("question", JStr (Poll.question poll));
                                 ("totalVotes", JInt total);
                                 ("options",
                                  JArr (map (fun o =>
                                     JObj [("id", JStr (PollOption.id o));
                                           ("text", JStr (PollOption.text o));
                                           ("voteCount", JInt (count o));
                                           ("percentage",
                                            JNum (if 0 <? total
                                                  then Math_round
                                                         (mul (div (of_Z (count o))
                                                                   (of_Z total))
                                                              (of_Z 100))
                                                  else of_Z 0))])
                                    rows))])] |},
           w, []))
  /\ (forall req', params_pollId req' = params_pollId req ->
        run vu order 4 (getPollResults req') w = run vu order 4 (getPollResults req) w).
Proof.
  assert (Hrun : forall q, run vu order 4 (getPollResults q) w
    = (match poll_findUnique order (db w) (params_pollId q) with
       | Some results =>
           respond 200 (JObj [("results", results_json (Some (tally results)))])
       | None => respond 404 (error_body "Poll not found")
       end, w, [])).
  { intros q. cbn. by destruct (poll_findUnique order (db w) (params_pollId q)). }
  split; [|split].
  - intros Hnone. rewrite Hrun. unfold poll_findUnique.
    by rewrite (find_poll_None _ _ Hnone).
  - intros poll Hnd Hin Hid rows count total. rewrite Hrun. unfold poll_findUnique.
    rewrite <- Hid, (find_poll_NoDup _ _ Hnd Hin). cbn [fmap option_fmap option_map].
    unfold respond, results_json. rewrite tally_total, tally_options.
    cbn [pollId question tally fst options]. unfold options_of, count_votes.
    rewrite <- !list_fmap_compose. reflexivity.
  - intros req' Heq. rewrite !Hrun, Heq. done.
Qed.

(** The unpublished poll of Carol, asked for by Bob; the store
    returns the two options second first. *)
Lemma getPollResults_any_poll_witness :
  run unique_voter_option 1 4 (getPollResults (results_request bob "p3")) seed_world
  = (Ret {| status := 200;
            json :=
              JObj [("results",
                     JObj [("pollId", JStr "p3");
                           ("question", JStr "What is the best time for team meetings?");
                           ("totalVotes", JInt 0);
                           ("options",
                            JArr [JObj [("id", JStr "o8");
                                        ("text", JStr "Afternoon (2-4 PM)");
                                        ("voteCount", JInt 0); ("percentage", JInt 0)];
                                  JObj [("id", JStr "o7");
                                        ("text", JStr "Morning (9-11 AM)");
                                        ("voteCount", JInt 0);
                                        ("percentage", JInt 0)]])])] |},
     seed_world, []).
Proof.
  refine (proj1 (proj2 (getPollResults_any_poll unique_voter_option 1
                          (results_request bob "p3") seed_world))
            (Poll.mk "p3" "What is the best time for team meetings?" false "u3")
            _ _ eq_refl).
  - refine (bool_decide_unpack _ _). by vm_compute.
  - apply list_elem_of_further, list_elem_of_here.
Defined.

(** ** Rooms *)

Lemma members_join (sid room room' : string) (rooms : Rooms) :
  members (socket_join sid room rooms) room'
  = if decide (room = room') then {[sid]} ∪ members rooms room
    else members rooms room'.
Proof.
  unfold members, socket_join. destruct (decide (room = room')).
  - subst. by rewrite lookup_insert_eq.
  - by rewrite lookup_insert_ne.
Qed.

Lemma members_leave (sid room room' : string) (rooms : Rooms) :
  members (socket_leave sid room rooms) room'
  = if decide (room = room') then members rooms room ∖ {[sid]}
    else members rooms room'.
Proof.
  unfold members, socket_leave.
  destruct (rooms !! room) as [s|] eqn:Hroom.
  - destruct (decide (s ∖ {[sid]} = ∅)) as [Hempty|Hne]; destruct (decide (room = room')); subst.
    + rewrite lookup_delete_eq. cbn. by rewrite Hempty.
    + by rewrite lookup_delete_ne.
    + by rewrite lookup_insert_eq.
    + by rewrite lookup_insert_ne.
  - destruct (decide (room = room')); subst; [|done]. rewrite Hroom. cbn. set_solver.
Qed.

Lemma members_leaveAll (sid room : string) (rooms : Rooms) :
  members (socket_leaveAll sid rooms) room = members rooms room ∖ {[sid]}.
Proof.
  unfold members, socket_leaveAll. rewrite lookup_omap.
  destruct (rooms !! room) as [s|]; cbn.
  - destruct (decide (s ∖ {[sid]} = ∅)) as [Hempty|Hne]; cbn; [by rewrite Hempty|done].
  - set_solver.
Qed.

Lemma getOnlineUsersInPoll_size (rooms : Rooms) (pollId : string) :
  getOnlineUsersInPoll rooms pollId = Z.of_nat (size (members rooms (poll_room pollId))).
Proof.
  unfold getOnlineUsersInPoll, members. by destruct (rooms !! poll_room pollId).
Qed.

Lemma filter_absent (x : string) (l : list string) :
  x ∉ l -> filter (fun y => y = x) l = [].
Proof.
  induction l as [|y l IH]; intros Hx; [done|].
  apply not_elem_of_cons in Hx as [Hne Hx].
  rewrite filter_cons, decide_False by done. by apply IH.
Qed.

Lemma count_NoDup (x : string) (l : list string) :
  NoDup l -> x ∈ l -> length (filter (fun y => y = x) l) = 1%nat.
Proof.
  induction 1 as [|y l Hy Hnd IH]; intros Hin; [by apply elem_of_nil in Hin|].
  apply elem_of_cons in Hin. rewrite filter_cons. destruct (decide (y = x)) as [Hxy|Hxy].
  - subst y. cbn. by rewrite filter_absent.
  - destruct Hin as [->|Hin]; [done|]. by apply IH.
Qed.

(** C7: for every socket and poll, a second [joinPoll] leaves the
    rooms as the first one made them, and a broadcast to the poll's room
    then lists the socket exactly once among its recipients; a
    [leavePoll] by a socket that is not in the poll's room leaves the
    members of every room as they were (the handler is a total
    function: nothing is raised). *)
Theorem joinPoll_twice_leavePoll_absent (sid pollId : string) (rooms : Rooms) :
  handleConnection sid (joinPoll pollId) (handleConnection sid (joinPoll pollId) rooms)
  = handleConnection sid (joinPoll pollId) rooms
  /\ length (filter (fun y => y = sid)
       (recipients
          (handleConnection sid (joinPoll pollId)
             (handleConnection sid (joinPoll pollId) rooms))
          (poll_room pollId))) = 1%nat
  /\ (sid ∉ members rooms (poll_room pollId) ->
      forall room,
        members (handleConnection sid (leavePoll pollId) rooms) room
        = members rooms room).
Proof.
  assert (Hidem :
    handleConnection sid (joinPoll pollId) (handleConnection sid (joinPoll pollId) rooms)
    = handleConnection sid (joinPoll pollId) rooms).
  { cbn. unfold socket_join at 1. rewrite members_join.
    rewrite decide_True by done. unfold socket_join.
    rewrite insert_insert_eq. f_equal. set_solver. }
  split; [exact Hidem|]. split.
  - rewrite Hidem. apply count_NoDup; [apply NoDup_elements|].
    unfold recipients. apply elem_of_elements. cbn. rewrite members_join.
    rewrite decide_True by done. set_solver.
  - intros Hnot room. cbn. rewrite members_leave. destruct (decide _); [subst|done].
    set_solver.
Qed.

Lemma joinPoll_twice_leavePoll_absent_witness :
  members (handleConnection "s3" (leavePoll "p1") (rooms seed_world)) (poll_room "p1")
  = members (rooms seed_world) (poll_room "p1").
Proof.
  refine (proj2 (proj2 (joinPoll_twice_leavePoll_absent "s3" "p1" (rooms seed_world)))
            _ (poll_room "p1")).
  vm_compute. set_solver.
Defined.

(** ** What one turn can do *)

Lemma same_tables_find_option st st0 id :
  same_tables st st0 -> find_option st id = find_option st0 id.
Proof. intros (_ & _ & H). unfold find_option. by rewrite H. Qed.

Lemma same_tables_find_poll st st0 id :
  same_tables st st0 -> find_poll st id = find_poll st0 id.
Proof. intros (_ & H & _). unfold find_poll. by rewrite H. Qed.

Lemma same_tables_find_user st st0 id :
  same_tables st st0 -> find_user st id = find_user st0 id.
Proof. intros (H & _). unfold find_user. by rewrite H. Qed.

Lemma same_tables_findUnique st st0 id :
  same_tables st st0 -> pollOption_findUnique st id = pollOption_findUnique st0 id.
Proof.
  intros H. unfold pollOption_findUnique.
  destruct id as [[| | |optionId| |]|]; try done.
  rewrite (same_tables_find_option _ _ _ H).
  destruct (find_option st0 optionId); [|done].
  by rewrite (same_tables_find_poll _ _ _ H).
Qed.

Lemma same_tables_poll_of_option st st0 id :
  same_tables st st0 -> poll_of_option st id = poll_of_option st0 id.
Proof. intros H. unfold poll_of_option. by rewrite (same_tables_find_option _ _ _ H). Qed.

Lemma findUnique_Some st id o poll :
  pollOption_findUnique st id = inl (Some (o, poll)) ->
  exists oid, id = Some (JStr oid) /\ find_option st oid = Some o
              /\ find_poll st (PollOption.pollId o) = Some poll.
Proof.
  unfold pollOption_findUnique. destruct id as [[| | |oid| |]|]; try done.
  destruct (find_option st oid) as [o'|] eqn:Ho; [|done].
  destruct (find_poll st (PollOption.pollId o')) as [p'|] eqn:Hp; [|done].
  intros [= -> ->]. eauto.
Qed.

Lemma inserted_app (l1 l2 : list Effect) :
  inserted (l1 ++ l2) = inserted l1 ++ inserted l2.
Proof. unfold inserted. apply omap_app. Qed.

Lemma elem_of_inserted (v : Vote.t) (effs : list Effect) :
  v ∈ inserted effs <-> Inserted v ∈ effs.
Proof.
  unfold inserted. rewrite list_elem_of_omap. split.
  - intros ([v'|] & Hin & Heq); [|done]. by injection Heq as ->.
  - intros Hin. by exists (Inserted v).
Qed.

(** A command leaves users, polls, options and rooms alone, and
    appends to the vote table exactly the votes it reports as
    inserted. *)
Lemma exec_frame vu order {X : Type} (c : Cmd X) (w w' : World) (r : Result X)
    (effs : list Effect) :
  exec vu order c w = (r, w', effs) ->
  same_tables (db w') (db w) /\ rooms w' = rooms w
  /\ votes (db w') = votes (db w) ++ inserted effs.
Proof.
  destruct c; cbn; try unchanged. unfold vote_create.
  destruct pollOptionId as [[| | |oid| |]|]; try unchanged.
  destruct (find_option (db w) oid); [|unchanged].
  destruct (find_poll (db w) _); [|unchanged].
  destruct (find_user (db w) _); [|unchanged].
  destruct (existsb _ _); intros [= <- <- <-]; cbn; [by rewrite app_nil_r|done].
Qed.

(** An insert happens only when no row of the vote table collides
    with the new one. *)
Lemma exec_inserted vu order {X : Type} (c : Cmd X) (w w' : World) (r : Result X)
    (effs : list Effect) (v : Vote.t) :
  exec vu order c w = (r, w', effs) -> Inserted v ∈ effs ->
  existsb (vu (db w) (Vote.userId v) (Vote.pollOptionId v)) (votes (db w)) = false.
Proof.
  destruct c; cbn; try no_effect. unfold vote_create.
  destruct pollOptionId as [[| | |oid| |]|]; try no_effect.
  destruct (find_option (db w) oid); [|no_effect].
  destruct (find_poll (db w) _); [|no_effect].
  destruct (find_user (db w) _); [|no_effect].
  destruct (existsb _ _) eqn:Hex; [no_effect|].
  intros [= <- <- <-] Hin.
  apply list_elem_of_singleton in Hin. injection Hin as ->. exact Hex.
Qed.

Lemma exec_not_emitted vu order {X : Type} (c : Cmd X) (w w' : World) (r : Result X)
    (effs : list Effect) (room event : string) (payload : JSON) (to : list string) :
  exec vu order c w = (r, w', effs) -> Emitted room event payload to ∉ effs.
Proof.
  intros Hexec Hin. revert Hexec.
  destruct c as [id|userId pollId|voter pollOptionId|id]; cbn;
    try (intros [= <- <- <-]; by apply elem_of_nil in Hin).
  destruct (vote_create vu (db w) voter pollOptionId) as [[r1 st'] e1] eqn:Hvc.
  intros [= <- <- <-]. revert Hvc. unfold vote_create.
  repeat match goal with
         | |- context [match ?x with _ => _ end] => destruct x
         end; intros [= ? ? <-];
    try (by apply elem_of_nil in Hin).
  apply list_elem_of_singleton in Hin. discriminate.
Qed.

(** The synchronous code of a turn only emits, to the members the
    rooms have at that moment. *)
Lemma sync_emits (p p' : Prog Response) (rooms : Rooms) (effs : list Effect) :
  sync p rooms = (p', effs) ->
  inserted effs = []
  /\ forall e, e ∈ effs ->
       exists room event payload,
         e = Emitted room event payload (recipients rooms room).
Proof.
  revert p' effs. induction p as [a|e|X c k _|room event payload k IH];
    intros p' effs; cbn;
    try (intros [= <- <-]; split; [done|]; intros e0 Hin; by apply elem_of_nil in Hin).
  destruct (sync k rooms) as [p1 e1]. intros [= <- <-].
  destruct (IH _ _ eq_refl) as [Hins Hall]. split; [done|].
  intros e0 Hin. apply elem_of_cons in Hin as [->|Hin]; eauto.
Qed.

Lemma step_frame vu order (p p' : Prog Response) (w w' : World) (effs : list Effect) :
  step vu order p w = (p', w', effs) ->
  same_tables (db w') (db w) /\ rooms w' = rooms w
  /\ votes (db w') = votes (db w) ++ inserted effs.
Proof.
  destruct p as [a|e|X c k|room event payload k]; cbn [step];
    try (intros [= <- <- <-]; cbn; by rewrite app_nil_r).
  - destruct (exec vu order c w) as [[r w1] e1] eqn:Hexec.
    intros [= <- <- <-]. by eapply exec_frame.
  - destruct (sync (Emit room event payload k) (rooms w)) as [p1 e1] eqn:Hsync.
    intros [= <- <- <-]. destruct (sync_emits _ _ _ _ Hsync) as [-> _].
    by rewrite app_nil_r.
Qed.

Lemma step_inserted vu order (p p' : Prog Response) (w w' : World)
    (effs : list Effect) (v : Vote.t) :
  step vu order p w = (p', w', effs) -> Inserted v ∈ effs ->
  existsb (vu (db w) (Vote.userId v) (Vote.pollOptionId v)) (votes (db w)) = false.
Proof.
  destruct p as [a|e|X c k|room event payload k]; cbn [step];
    try (intros [= <- <- <-] Hin; by apply elem_of_nil in Hin).
  - destruct (exec vu order c w) as [[r w1] e1] eqn:Hexec.
    intros [= <- <- <-] Hin. by eapply exec_inserted.
  - destruct (sync (Emit room event payload k) (rooms w)) as [p1 e1] eqn:Hsync.
    intros [= <- <- <-] Hin. destruct (sync_emits _ _ _ _ Hsync) as [_ Hall].
    by destruct (Hall _ Hin) as (? & ? & ? & ?).
Qed.

Lemma step_emitted vu order (p p' : Prog Response) (w w' : World)
    (effs : list Effect) (room event : string) (payload : JSON) (to : list string) :
  step vu order p w = (p', w', effs) -> Emitted room event payload to ∈ effs ->
  to = recipients (rooms w) room.
Proof.
  destruct p as [a|e|X c k|room0 event0 payload0 k]; cbn [step];
    try (intros [= <- <- <-] Hin; by apply elem_of_nil in Hin).
  - destruct (exec vu order c w) as [[r w1] e1] eqn:Hexec.
    intros [= <- <- <-] Hin.
    by destruct (exec_not_emitted _ _ _ _ _ _ _ _ _ _ _ Hexec Hin).
  - destruct (sync (Emit room0 event0 payload0 k) (rooms w)) as [p1 e1] eqn:Hsync.
    intros [= <- <- <-] Hin. destruct (sync_emits _ _ _ _ Hsync) as [_ Hall].
    by destruct (Hall _ Hin) as (? & ? & ? & [= -> -> -> ->]).
Qed.

Lemma resume_eq {X : Type} (r : Result X) (k : X -> Prog Response) :
  resume r k
  = match r with
    | inl x => try_catch (k x) submitVote_catch
    | inr e => submitVote_catch e
    end.
Proof. by destruct r. Qed.

Lemma phase_cong (st0 : Store) (req : Request) (p q : Prog Response)
    (effs : list Effect) :
  phase st0 req p effs -> p = q -> phase st0 req q effs.
Proof. by intros H <-. Qed.

(** *** The handler, one [await] at a time *)

Lemma submitVote_catch_Ret (err : Error) : exists r, submitVote_catch err = Ret r.
Proof. unfold submitVote_catch. destruct (bool_decide _); by eexists. Qed.

Lemma submitVote_start (req : Request) :
  body req <> JNull ->
  truthy (prop "pollOptionId" (body req)) = true ->
  submitVote req
  = Await (PollOption_findUnique (prop "pollOptionId" (body req)))
      (fun r => resume r (submitVote_check req (prop "pollOptionId" (body req)))).
Proof.
  intros Hbody H. unfold submitVote, submitVote_try.
  destruct (body req); try done; by rewrite H.
Qed.

(** Before its first [await] the handler has answered (500 for a null
    body, whose destructuring throws; 400 for a missing id) or waits
    for the option. *)
Lemma submitVote_cases (req : Request) :
  (body req = JNull
   /\ submitVote req = Ret {| status := 500; json := error_body "Internal server error" |})
  \/ (body req <> JNull /\ truthy (prop "pollOptionId" (body req)) = false
      /\ submitVote req
         = Ret {| status := 400; json := error_body "Poll option ID is required" |})
  \/ (body req <> JNull /\ truthy (prop "pollOptionId" (body req)) = true
      /\ submitVote req
         = Await (PollOption_findUnique (prop "pollOptionId" (body req)))
             (fun r => resume r (submitVote_check req (prop "pollOptionId" (body req))))).
Proof.
  assert (Hdec : body req = JNull \/ body req <> JNull)
    by (destruct (body req); (by left) || (by right)).
  destruct Hdec as [Hnull|Hbody].
  - left. split; [done|]. unfold submitVote, submitVote_try. by rewrite Hnull.
  - right. destruct (truthy (prop "pollOptionId" (body req))) eqn:Htruthy.
    + right. split; [done|]. split; [done|]. by apply submitVote_start.
    + left. split; [done|]. split; [done|]. unfold submitVote, submitVote_try.
      destruct (body req); try done; by rewrite Htruthy.
Qed.

Lemma submitVote_check_published (req : Request) (id : value) (o : PollOption.t)
    (poll : Poll.t) :
  Poll.isPublished poll = true ->
  try_catch (submitVote_check req id (Some (o, poll))) submitVote_catch
  = Await (Vote_findFirst (User.id (user req)) (Poll.id poll))
      (fun r => resume r (submitVote_admit req id poll)).
Proof. intros H. unfold submitVote_check. by rewrite H. Qed.

Lemma submitVote_admit_new (req : Request) (id : value) (poll : Poll.t) :
  try_catch (submitVote_admit req id poll None) submitVote_catch
  = Await (Vote_create (user req) id)
      (fun r => resume r (submitVote_created req poll)).
Proof. reflexivity. Qed.

Lemma submitVote_emit_unfold (req : Request) (poll : Poll.t)
    (vote : Vote.t * PollOption.t * Poll.t) (updated : option PollResults) :
  try_catch (submitVote_emit req poll vote updated) submitVote_catch
  = Emit (poll_room (Poll.id poll)) "pollUpdate" (pollUpdate poll updated)
      (Ret (answer_201 req vote)).
Proof. reflexivity. Qed.

Lemma submitVote_created_unfold (req : Request) (poll : Poll.t)
    (vote : Vote.t * PollOption.t * Poll.t) :
  exists k,
    try_catch (submitVote_created req poll vote) submitVote_catch
    = Await (Poll_findUnique (Poll.id poll)) k
    /\ forall x, k (inl x)
                 = Emit (poll_room (Poll.id poll)) "pollUpdate"
                     (pollUpdate poll (tally <$> x)) (Ret (answer_201 req vote)).
Proof. eexists. split; [reflexivity|]. by intros [x|]. Qed.

Lemma step_Ret vu order (r : Response) (w : World) :
  step vu order (Ret r) w = (Ret r, w, []).
Proof. reflexivity. Qed.

Lemma step_done vu order (p : Prog Response) (r : Response) (w : World) :
  p = Ret r -> step vu order p w = (p, w, []).
Proof. by intros ->. Qed.

(** A turn takes a handler from one phase to the next (or leaves a
    finished handler where it is). *)
Lemma phase_step vu order (st0 : Store) (req : Request) (p p' : Prog Response)
    (effs e : list Effect) (w w' : World) :
  same_tables (db w) st0 ->
  (forall v, Inserted v ∈ effs -> v ∈ votes (db w)) ->
  phase st0 req p effs ->
  step vu order p w = (p', w', e) ->
  phase st0 req p' (effs ++ e).
Proof.
  intros Htab Hdur Hph.
  destruct Hph as [| |oid o poll existing Hid Ho Hp Hpub|code
                  |o poll v Hadm|o poll v st order0 Hadm Hst Hv
                  |o poll v st order0 to Hadm Hst Hv].
  - (* start *)
    destruct (submitVote_cases req) as [[_ Hret]|[(_ & _ & Hret)|(_ & _ & Hstart)]].
    + rewrite (step_done _ _ _ _ _ Hret). intros [= <- <- <-]. apply phase_start.
    + rewrite (step_done _ _ _ _ _ Hret). intros [= <- <- <-]. apply phase_start.
    + rewrite Hstart. cbn [step exec]. intros [= <- <- <-].
      rewrite (same_tables_findUnique _ _ _ Htab). apply phase_looked_up.
  - (* looked up *)
    pose proof (phase_looked_up st0 req) as Hsame.
    rewrite resume_eq in *.
    destruct (pollOption_findUnique st0 _) as [[[o poll]|]|err] eqn:Hfind.
    + destruct (findUnique_Some _ _ _ _ Hfind) as (oid & Hid & Ho & Hp).
      destruct (Poll.isPublished poll) eqn:Hpub.
      * rewrite submitVote_check_published by done. cbn [step exec].
        intros [= <- <- <-]. rewrite resume_eq, Hid. by eapply phase_preflight.
      * revert Hsame. unfold submitVote_check. rewrite Hpub. cbn.
        intros Hsame [= <- <- <-]. exact Hsame.
    + revert Hsame. cbn. intros Hsame [= <- <- <-]. exact Hsame.
    + destruct (submitVote_catch_Ret err) as [r Hr]. rewrite Hr in *.
      rewrite step_Ret. intros [= <- <- <-]. exact Hsame.
  - (* pre-flight *)
    destruct existing as [existing|].
    + cbn. intros [= <- <- <-].
      by eapply (phase_preflight _ _ _ _ _ (Some existing)).
    + rewrite submitVote_admit_new. cbn [step exec]. unfold vote_create.
      rewrite (same_tables_find_option _ _ _ Htab), Ho.
      rewrite (same_tables_find_poll _ _ _ Htab), Hp.
      destruct (find_user (db w) _);
        [destruct (existsb _ _)|]; cbn [insert_vote];
        intros [= <- <- <-]; rewrite resume_eq; try apply phase_refused.
      apply phase_created. by repeat split.
  - (* refused by the store *)
    destruct (submitVote_catch_Ret (PrismaKnownRequestError code)) as [r Hr].
    rewrite (step_done _ _ _ _ _ Hr). intros [= <- <- <-]. apply phase_refused.
  - (* created: the store reads the poll for the tally *)
    destruct (submitVote_created_unfold req poll (v, o, poll)) as (k & -> & Hk).
    cbn [step exec]. rewrite Hk. intros [= <- <- <-].
    eapply phase_tallied; [done..|]. apply Hdur. set_solver.
  - (* tallied: the handler broadcasts and answers *)
    cbn [step sync]. intros [= <- <- <-]. by eapply phase_answered.
  - (* answered *)
    rewrite step_Ret. intros [= <- <- <-]. by eapply phase_answered.
Qed.

(** ** The server invariant *)

Lemma effects_of_turn (pid pid' : nat) (tr : list (nat * Effect)) (effs : list Effect)
    (w : World) (ps : list (Prog Response)) :
  effects_of pid {| world := w; procs := ps; trace := tr ++ map (pair pid') effs |}
  = effects_of pid {| world := w; procs := ps; trace := tr |}
    ++ (if decide (pid' = pid) then effs else []).
Proof.
  unfold effects_of. cbn. rewrite filter_app, fmap_app. f_equal.
  induction effs as [|e effs IH]; [by destruct (decide _)|].
  change (map (pair pid') (e :: effs)) with ((pid', e) :: map (pair pid') effs).
  rewrite filter_cons. change (fst (pid', e)) with pid'.
  destruct (decide (pid' = pid)); [rewrite fmap_cons|]; by rewrite IH.
Qed.

Lemma snd_pair (pid : nat) (effs : list Effect) : snd <$> map (pair pid) effs = effs.
Proof. induction effs as [|e effs IH]; cbn; [done|]. by f_equal. Qed.

Lemma effects_of_trace (pid : nat) (s : System) (e : Effect) :
  e ∈ effects_of pid s -> e ∈ snd <$> trace s.
Proof.
  unfold effects_of. rewrite !list_elem_of_fmap.
  intros (x & -> & Hin). apply list_elem_of_filter in Hin as [_ Hin]. eauto.
Qed.

Lemma well_phased_serve (w : World) (requests : list Request) :
  well_phased (db w) requests (serve w requests).
Proof.
  split; [done|]. split; [cbn; by rewrite app_nil_r|].
  split; [intros pid e Hin; by apply elem_of_nil in Hin|].
  intros pid p. cbn. rewrite list_lookup_fmap.
  destruct (requests !! pid) as [req|]; [|done].
  intros [= <-]. exists req. split; [done|]. apply phase_start.
Qed.

Lemma well_phased_step vu (st0 : Store) (requests : list Request) (s : System)
    (a : Action) :
  well_phased st0 requests s -> well_phased st0 requests (sys_step vu s a).
Proof.
  intros (Htab & Hvotes & Hpids & Hph). destruct a as [pid order|sid ev|sid]; [|done..].
  unfold sys_step. destruct (procs s !! pid) as [p|] eqn:Hp; [|done].
  destruct (step vu order p (world s)) as [[p' w'] effs] eqn:Hstep.
  destruct (step_frame _ _ _ _ _ _ _ Hstep) as ((Husers & Hpolls & Hopts) & _ & Hv).
  destruct (Hph _ _ Hp) as (req & Hreq & Hphase).
  assert (Hnext : phase st0 req p' (effects_of pid s ++ effs)).
  { eapply phase_step; [exact Htab| |exact Hphase|exact Hstep].
    intros v Hin. rewrite Hvotes. apply elem_of_app. right.
    apply elem_of_inserted. by eapply effects_of_trace. }
  split; [|split; [|split]].
  - destruct Htab as (? & ? & ?). repeat split; cbn; congruence.
  - cbn. by rewrite Hv, Hvotes, fmap_app, inserted_app, snd_pair, <- app_assoc.
  - intros pid' e' Hin. cbn in *. apply elem_of_app in Hin as [Hin|Hin].
    + destruct (Hpids _ _ Hin) as [q Hq]. apply lookup_lt_is_Some.
      rewrite length_insert. by eapply lookup_lt_Some.
    + apply list_elem_of_fmap in Hin as (e0 & [= -> ->] & _).
      apply lookup_lt_is_Some. rewrite length_insert. by eapply lookup_lt_Some.
  - intros pid' q. cbn [procs]. rewrite effects_of_turn.
    destruct (decide (pid = pid')) as [<-|Hne].
    + rewrite list_lookup_insert_eq by (by eapply lookup_lt_Some).
      intros [= <-]. exists req. split; [done|].
      by destruct s.
    + rewrite list_lookup_insert_ne by done. rewrite app_nil_r.
      intros Hq. destruct (Hph _ _ Hq) as (req' & ? & ?). exists req'.
      split; [done|]. by destruct s.
Qed.

Lemma well_phased_run vu (st0 : Store) (requests : list Request)
    (schedule : list Action) (s : System) :
  well_phased st0 requests s -> well_phased st0 requests (sys_run vu schedule s).
Proof.
  revert s. induction schedule as [|a schedule IH]; intros s Hs; [done|].
  cbn. apply IH. by apply well_phased_step.
Qed.

(** ** Effects of a handler *)

(** What a handler has done is nothing, its insert, or its insert
    followed by its broadcast of a tally read after the insert; a
    finished handler that did anything answered 201. *)
Lemma phase_effects (st0 : Store) (req : Request) (p : Prog Response)
    (effs : list Effect) :
  phase st0 req p effs ->
  effs = []
  \/ exists o poll v,
       admits st0 req o poll v
       /\ ((effs = [Inserted v] /\ forall r, p <> Ret r)
           \/ exists st order to,
                same_tables st st0 /\ v ∈ votes st
                /\ p = Ret (answer_201 req (v, o, poll))
                /\ effs = [Inserted v;
                           Emitted (poll_room (Poll.id poll)) "pollUpdate"
                             (pollUpdate poll
                                (tally <$> poll_findUnique order st (Poll.id poll)))
                             to]).
Proof.
  destruct 1; try (by left); right; exists o, poll, v; (split; [done|]).
  - left. split; [done|]. intros r.
    by destruct (submitVote_created_unfold req poll (v, o, poll)) as (k & -> & _).
  - left. by split.
  - right. by exists st, order, to.
Qed.


(** C6: in every interleaving of [submitVote] handlers with each
    other and with socket events, a handler that has answered 400, 404,
    403 or 409 (by the pre-flight lookup or by the constraint) has
    inserted no vote and emitted nothing; the vote table holds the
    initial votes and the inserts of the trace, nothing else; and what
    any handler has done is nothing, or its insert, or its insert (a
    row of the table by then) followed by its broadcast. *)
Theorem rejection_without_effect vu (w : World) (requests : list Request)
    (schedule : list Action) :
  let s := sys_run vu schedule (serve w requests) in
  votes (db (world s)) = votes (db w) ++ inserted (snd <$> trace s)
  /\ forall pid p,
       procs s !! pid = Some p ->
       (forall r, p = Ret r -> status r ∈ [400; 404; 403; 409] ->
                  effects_of pid s = [])
       /\ (effects_of pid s = []
           \/ exists v,
                v ∈ votes (db (world s))
                /\ (effects_of pid s = [Inserted v]
                    \/ exists room payload to,
                         effects_of pid s
                         = [Inserted v; Emitted room "pollUpdate" payload to])).
Proof.
  intros s.
  destruct (well_phased_run vu _ _ schedule _ (well_phased_serve w requests))
    as (_ & Hvotes & _ & Hph).
  fold s in Hvotes, Hph. split; [exact Hvotes|].
  intros pid p Hp. destruct (Hph _ _ Hp) as (req & _ & Hphase).
  assert (Hdur : forall v, Inserted v ∈ effects_of pid s -> v ∈ votes (db (world s))).
  { intros v Hin. rewrite Hvotes. apply elem_of_app. right.
    apply elem_of_inserted. by eapply effects_of_trace. }
  destruct (phase_effects _ _ _ _ Hphase)
    as [Hnil|(o & poll & v & _
              & [[Heff Hrun]|(st & order & to & _ & _ & Hret & Heff)])].
  - split; [done|by left].
  - split; [intros r ->; by destruct (Hrun r)|].
    right. exists v. split; [apply Hdur; rewrite Heff; set_solver|by left].
  - split.
    + intros r -> Hstatus. injection Hret as ->. cbn in Hstatus.
      rewrite !elem_of_cons, elem_of_nil in Hstatus. lia.
    + right. exists v. split; [apply Hdur; rewrite Heff; set_solver|].
      right. by eexists _, _, _.
Qed.

Lemma rejection_without_effect_witness :
  procs (sys_run unique_voter_poll race (serve seed_world carol_requests)) !! 2%nat
  = Some (respond 409 (error_body "You have already voted in this poll"))
  /\ effects_of 2 (sys_run unique_voter_poll race (serve seed_world carol_requests)) = [].
Proof.
  assert (Hp : procs (sys_run unique_voter_poll race (serve seed_world carol_requests))
               !! 2%nat
               = Some (respond 409 (error_body "You have already voted in this poll")))
    by reflexivity.
  split; [exact Hp|].
  refine (proj1 (proj2 (rejection_without_effect unique_voter_poll seed_world
                          carol_requests race) 2%nat _ Hp) _ eq_refl _).
  cbn. repeat constructor.
Defined.

(** ** The two ways to detect a second vote *)





(** ** The broadcast payload *)

Lemma same_tables_options_of st st0 pollId :
  same_tables st st0 -> options_of st pollId = options_of st0 pollId.
Proof. intros (_ & _ & H). unfold options_of. by rewrite H. Qed.

Lemma admits_poll_id st0 req o poll v :
  admits st0 req o poll v -> find_poll st0 (Poll.id poll) = Some poll.
Proof.
  intros (_ & _ & Hp & _). by rewrite (find_poll_id _ _ _ Hp).
Qed.







(** ** Disconnection *)

Lemma handleConnection_other (sid sid' : string) (ev : SocketEvent) (rooms : Rooms) :
  sid' <> sid -> (forall room, sid ∉ members rooms room) ->
  forall room, sid ∉ members (handleConnection sid' ev rooms) room.
Proof.
  intros Hne Habs room. destruct ev as [pollId|pollId|]; cbn; [| |done].
  - rewrite members_join. destruct (decide _); [|done].
    specialize (Habs (poll_room pollId)). set_solver.
  - rewrite members_leave. destruct (decide _); [|done].
    specialize (Habs (poll_room pollId)). set_solver.
Qed.

Lemma socket_close_other (sid sid' : string) (rooms : Rooms) :
  (forall room, sid ∉ members rooms room) ->
  forall room, sid ∉ members (socket_close sid' rooms) room.
Proof.
  intros Habs room. cbn. rewrite members_leaveAll.
  specialize (Habs room). set_solver.
Qed.

(** Once a socket is in no room, no broadcast reaches it until it
    joins one again. *)
Lemma absent_not_reached vu (sid : string) (schedule : list Action) (s : System) :
  (forall room, sid ∉ members (rooms (world s)) room) ->
  (forall ev, Socket sid ev ∉ schedule) ->
  exists later,
    trace (sys_run vu schedule s) = trace s ++ later
    /\ forall pid room event payload to,
         (pid, Emitted room event payload to) ∈ later -> sid ∉ to.
Proof.
  revert s. induction schedule as [|a schedule IH]; intros s Habs Hquiet.
  { exists []. split; [by rewrite app_nil_r|]. intros ????? Hin.
    by apply elem_of_nil in Hin. }
  assert (Hquiet' : forall ev, Socket sid ev ∉ schedule).
  { intros ev Hin. apply (Hquiet ev). by apply list_elem_of_further. }
  change (sys_run vu (a :: schedule) s) with (sys_run vu schedule (sys_step vu s a)).
  destruct a as [pid order|sid' ev|sid'].
  - unfold sys_step. destruct (procs s !! pid) as [p|] eqn:Hp; [|by apply IH].
    destruct (step vu order p (world s)) as [[p' w'] effs] eqn:Hstep.
    destruct (step_frame _ _ _ _ _ _ _ Hstep) as (_ & Hrooms & _).
    destruct (IH {| world := w'; procs := <[pid:=p']> (procs s);
                    trace := trace s ++ map (pair pid) effs |})
      as (later & Htrace & Hlater); [cbn; by rewrite Hrooms|done|].
    exists (map (pair pid) effs ++ later). split.
    + rewrite Htrace. cbn. by rewrite app_assoc.
    + intros pid' room event payload to Hin.
      apply elem_of_app in Hin as [Hin|Hin]; [|by eapply Hlater].
      apply list_elem_of_fmap in Hin as (e & [= -> <-] & Hin).
      rewrite (step_emitted _ _ _ _ _ _ _ _ _ _ _ Hstep Hin).
      unfold recipients. rewrite elem_of_elements. apply Habs.
  - destruct (IH (sys_step vu s (Socket sid' ev))) as (later & Htrace & Hlater);
      [|done|by exists later].
    cbn. apply handleConnection_other; [|done].
    intros ->. apply (Hquiet ev). apply list_elem_of_here.
  - destruct (IH (sys_step vu s (Close sid'))) as (later & Htrace & Hlater);
      [|done|by exists later].
    cbn. by apply socket_close_other.
Qed.

(** C8: when a socket closes it is in no room afterwards; the
    other members of every room are who they were; and as long as the
    closed socket sends no further event, no broadcast of any later run
    lists it among its recipients.  (Socket.IO removes a closing socket
    from its rooms; the ['disconnect'] listener of the handlers only
    logs.) *)
Theorem disconnect_prunes vu (sid : string) (s : System) (schedule : list Action) :
  (forall room, sid ∉ members (rooms (world (sys_step vu s (Close sid)))) room)
  /\ (forall room other,
        other <> sid ->
        other ∈ recipients (rooms (world (sys_step vu s (Close sid)))) room
        <-> other ∈ recipients (rooms (world s)) room)
  /\ ((forall ev, Socket sid ev ∉ schedule) ->
      exists later,
        trace (sys_run vu schedule (sys_step vu s (Close sid))) = trace s ++ later
        /\ forall pid room event payload to,
             (pid, Emitted room event payload to) ∈ later -> sid ∉ to).
Proof.
  assert (Habs : forall room,
             sid ∉ members (rooms (world (sys_step vu s (Close sid)))) room).
  { intros room. cbn. rewrite members_leaveAll. set_solver. }
  split; [exact Habs|]. split.
  - intros room other Hne. unfold recipients. rewrite !elem_of_elements. cbn.
    rewrite members_leaveAll. set_solver.
  - intros Hquiet. by apply (absent_not_reached vu sid schedule _ Habs).
Qed.

Lemma disconnect_prunes_witness :
  exists later,
    trace (sys_run unique_voter_poll alone
             (sys_step unique_voter_poll
                (serve seed_world [vote_request carol "o2"]) (Close "s1")))
    = [] ++ later
    /\ forall pid room event payload to,
         (pid, Emitted room event payload to) ∈ later -> "s1" ∉ to.
Proof.
  refine (proj2 (proj2 (disconnect_prunes unique_voter_poll "s1"
                          (serve seed_world [vote_request carol "o2"]) alone)) _).
  intros ev Hin. unfold alone in Hin.
  repeat (apply elem_of_cons in Hin as [Hin|Hin]; [discriminate|]).
  by apply elem_of_nil in Hin.
Defined.

(** ** Every handler answers *)

Lemma finishes_catch (n : nat) (err : Error) : finishes n (submitVote_catch err).
Proof. destruct (submitVote_catch_Ret err) as [r ->]. constructor. Qed.

(** [submitVote] awaits at most four calls, whatever they return, and
    then emits once. *)
Lemma finishes_submitVote (req : Request) : finishes 5 (submitVote req).
Proof.
  destruct (submitVote_cases req) as [[_ ->]|[(_ & _ & ->)|(_ & _ & ->)]];
    [constructor..|].
  constructor. intros [[[o poll]|]|err]; cbn;
    [|constructor|apply finishes_catch].
  destruct (Poll.isPublished poll); cbn; [|constructor].
  constructor. intros [[existing|]|err]; cbn;
    [constructor| |apply finishes_catch].
  constructor. intros [vote|err]; cbn; [|apply finishes_catch].
  constructor. intros [[results|]|err]; cbn;
    [| |apply finishes_catch]; repeat constructor.
Qed.

Lemma finishes_mono (n m : nat) (p : Prog Response) :
  (n <= m)%nat -> finishes n p -> finishes m p.
Proof.
  intros Hle Hfin. revert m Hle.
  induction Hfin as [n r|n X c k Hk IH|n room event payload k Hk IH]; intros m Hle.
  - constructor.
  - destruct m as [|m]; [lia|]. constructor. intros r. apply IH. lia.
  - destruct m as [|m]; [lia|]. constructor. apply IH. lia.
Qed.

Lemma finishes_sync (n : nat) (p : Prog Response) (rooms : Rooms) :
  finishes n p -> finishes n (sync p rooms).1.
Proof.
  induction 1 as [n r|n X c k Hk _|n room event payload k Hk IH]; cbn.
  - constructor.
  - by constructor.
  - destruct (sync k rooms) as [p1 e1]. cbn in *.
    apply (finishes_mono n); [lia|done].
Qed.

Lemma finishes_step vu order (n : nat) (p p' : Prog Response) (w w' : World)
    (effs : list Effect) :
  finishes n p -> step vu order p w = (p', w', effs) -> finishes (pred n) p'.
Proof.
  intros Hfin. destruct Hfin as [n r|n X c k Hk|n room event payload k Hk];
    cbn [step].
  - intros [= <- <- <-]. constructor.
  - destruct (exec vu order c w) as [[r w1] e1]. intros [= <- <- <-]. apply Hk.
  - pose proof (finishes_sync n k (rooms w) Hk) as Hsync. cbn [sync].
    destruct (sync k (rooms w)) as [p1 e1]. by intros [= <- <- <-].
Qed.

Lemma finishes_0 (p : Prog Response) : finishes 0 p -> exists r, p = Ret r.
Proof. inversion 1; subst. by eexists. Qed.

Lemma sys_run_finishes vu (schedule : list Action) (s : System) (pid : nat)
    (p : Prog Response) (n : nat) :
  procs s !! pid = Some p -> finishes n p ->
  exists p', procs (sys_run vu schedule s) !! pid = Some p'
             /\ finishes (n - turns pid schedule) p'.
Proof.
  revert s p n. induction schedule as [|a schedule IH]; intros s p n Hp Hfin.
  { exists p. split; [done|]. by rewrite Nat.sub_0_r. }
  change (sys_run vu (a :: schedule) s) with (sys_run vu schedule (sys_step vu s a)).
  destruct a as [q order|sid ev|sid]; [|by apply (IH _ p)..].
  unfold turns. cbn [List.filter is_turn]. unfold sys_step.
  destruct (decide (q = pid)) as [->|Hne].
  - rewrite Hp, bool_decide_true by done.
    destruct (step vu order p (world s)) as [[p' w'] effs] eqn:Hstep.
    pose proof (finishes_step _ _ _ _ _ _ _ _ Hfin Hstep) as Hfin'.
    destruct (IH {| world := w'; procs := <[pid:=p']> (procs s);
                    trace := trace s ++ map (pair pid) effs |} p' (pred n))
      as (p'' & Hp'' & Hfin''); [|done|].
    { cbn. apply list_lookup_insert_eq. by eapply lookup_lt_Some. }
    exists p''. split; [done|]. cbn [length].
    replace (n - S (length (List.filter (is_turn pid) schedule)))%nat
      with (pred n - turns pid schedule)%nat by (unfold turns; lia).
    done.
  - rewrite bool_decide_false by done.
    destruct (procs s !! q) as [pq|] eqn:Hq; [|by apply (IH _ p)].
    destruct (step vu order pq (world s)) as [[p' w'] effs] eqn:Hstep.
    apply (IH _ p); [|done]. cbn. by rewrite list_lookup_insert_ne.
Qed.

(** ** One vote per voter and poll under interleaving *)

(** A finished handler answered 201 after its insert, or one of the
    rejections without any effect. *)
Lemma phase_Ret (st0 : Store) (req : Request) (r : Response) (effs : list Effect) :
  phase st0 req (Ret r) effs ->
  (status r = 201 /\ exists v rest, effs = Inserted v :: rest)
  \/ (effs = [] /\ status r ∈ [400; 404; 403; 409; 500]).
Proof.
  intros H. remember (Ret r) as p eqn:Hp. destruct H.
  - right. split; [done|].
    destruct (submitVote_cases req) as [[_ Hs]|[(_ & _ & Hs)|(_ & _ & Hs)]];
      rewrite Hs in Hp; [| |discriminate]; injection Hp as <-; cbn; repeat constructor.
  - right. split; [done|]. rewrite resume_eq in Hp.
    destruct (pollOption_findUnique st0 _) as [[[o poll]|]|err].
    + unfold submitVote_check in Hp. destruct (Poll.isPublished poll); cbn in Hp;
        [discriminate|]. injection Hp as <-. cbn. repeat constructor.
    + cbn in Hp. injection Hp as <-. cbn. repeat constructor.
    + unfold submitVote_catch in Hp. destruct (bool_decide _);
        injection Hp as <-; cbn; repeat constructor.
  - right. split; [done|]. destruct existing; cbn in Hp; [|discriminate].
    injection Hp as <-. cbn. repeat constructor.
  - right. split; [done|]. unfold submitVote_catch in Hp. destruct (bool_decide _);
      injection Hp as <-; cbn; repeat constructor.
  - exfalso.
    by destruct (submitVote_created_unfold req poll (v, o, poll)) as (k & Hk & _);
      rewrite Hk in Hp.
  - discriminate.
  - left. injection Hp as <-. split; [done|]. by eexists _, _.
Qed.

Lemma not_voted_find (st : Store) (V P : string) :
  not_voted st V P -> List.find (vote_in_poll st V P) (votes st) = None.
Proof.
  intros Hnot. destruct (List.find _ _) as [v|] eqn:Hfind; [|done].
  apply find_some in Hfind as [Hin Hv]. unfold vote_in_poll in Hv.
  apply andb_true_iff in Hv as [Hu Hp].
  apply bool_decide_eq_true in Hu, Hp.
  by destruct (Hnot v (proj2 (list_elem_of_In _ _) Hin) Hu).
Qed.

(** *** The five turns of an accepted vote *)

Lemma step_lookup vu order (req : Request) (w : World) (oid : string)
    (o : PollOption.t) (poll : Poll.t) :
  prop "pollOptionId" (body req) = Some (JStr oid) -> oid <> "" ->
  find_option (db w) oid = Some o ->
  find_poll (db w) (PollOption.pollId o) = Some poll ->
  Poll.isPublished poll = true ->
  step vu order (submitVote req) w
  = (Await (Vote_findFirst (User.id (user req)) (Poll.id poll))
       (fun r => resume r (submitVote_admit req (Some (JStr oid)) poll)), w, []).
Proof.
  intros Hid Hne Ho Hp Hpub.
  assert (Hbody : body req <> JNull) by (intros Hnull; by rewrite Hnull in Hid).
  rewrite (submitVote_start req Hbody) by (rewrite Hid; by apply truthy_id).
  cbn [step exec]. unfold pollOption_findUnique. rewrite Hid, Ho, Hp. cbn beta.
  by rewrite resume_eq, submitVote_check_published.
Qed.

Lemma step_preflight vu order (req : Request) (w : World) (id : value) (poll : Poll.t) :
  not_voted (db w) (User.id (user req)) (Poll.id poll) ->
  step vu order
    (Await (Vote_findFirst (User.id (user req)) (Poll.id poll))
       (fun r => resume r (submitVote_admit req id poll))) w
  = (Await (Vote_create (user req) id)
       (fun r => resume r (submitVote_created req poll)), w, []).
Proof.
  intros Hnot. cbn [step exec]. rewrite (not_voted_find _ _ _ Hnot). cbn beta.
  by rewrite resume_eq.
Qed.

Lemma step_create vu order (req : Request) (w : World) (oid : string)
    (o : PollOption.t) (poll : Poll.t) (a : Account.t) :
  find_option (db w) oid = Some o ->
  find_poll (db w) (PollOption.pollId o) = Some poll ->
  find_user (db w) (User.id (user req)) = Some a ->
  existsb (vu (db w) (User.id (user req)) oid) (votes (db w)) = false ->
  step vu order
    (Await (Vote_create (user req) (Some (JStr oid)))
       (fun r => resume r (submitVote_created req poll))) w
  = (try_catch
       (submitVote_created req poll
          ((insert_vote (db w) (User.id (user req)) oid).1, o, poll))
       submitVote_catch,
     voted w (user req) oid,
     [Inserted (insert_vote (db w) (User.id (user req)) oid).1]).
Proof.
  intros Ho Hp Ha Hex. cbn [step exec]. unfold vote_create.
  rewrite Ho, Hp, Ha, Hex. unfold voted, insert_vote. cbn [fst snd].
  by rewrite resume_eq.
Qed.

Lemma step_tally vu order (req : Request) (w : World) (poll : Poll.t)
    (vote : Vote.t * PollOption.t * Poll.t) :
  step vu order (try_catch (submitVote_created req poll vote) submitVote_catch) w
  = (Emit (poll_room (Poll.id poll)) "pollUpdate"
       (pollUpdate poll (tally <$> poll_findUnique order (db w) (Poll.id poll)))
       (Ret (answer_201 req vote)), w, []).
Proof.
  destruct (submitVote_created_unfold req poll vote) as (k & -> & Hk).
  cbn [step exec]. by rewrite Hk.
Qed.

Lemma step_emit vu order (room event : string) (payload : JSON) (r : Response)
    (w : World) :
  step vu order (Emit room event payload (Ret r)) w
  = (Ret r, w, [Emitted room event payload (recipients (rooms w) room)]).
Proof. reflexivity. Qed.

Lemma sys_run_turn vu (pid order : nat) (schedule : list Action) (s : System)
    (p p' : Prog Response) (w' : World) (effs : list Effect) :
  procs s !! pid = Some p ->
  step vu order p (world s) = (p', w', effs) ->
  sys_run vu (Turn pid order :: schedule) s
  = sys_run vu schedule
      {| world := w'; procs := <[pid := p']> (procs s);
         trace := trace s ++ map (pair pid) effs |}.
Proof.
  intros Hp Hstep.
  change (sys_run vu (Turn pid order :: schedule) s)
    with (sys_run vu schedule (sys_step vu s (Turn pid order))).
  unfold sys_step. by rewrite Hp, Hstep.
Qed.

(** *** What a key on the Vote table can cover *)

Lemma unique_voter_poll_covers : unique_per_voter_and_poll unique_voter_poll.
Proof.
  intros st userId pollOptionId v P Hu Hv Ho. unfold unique_voter_poll.
  rewrite !bool_decide_true by congruence. done.
Qed.

Lemma unique_voter_poll_only : unique_only_voter_and_poll unique_voter_poll.
Proof.
  intros st userId pollOptionId v Hv. unfold unique_voter_poll in Hv.
  apply andb_true_iff in Hv as [Hu Hp]. by apply bool_decide_eq_true in Hu, Hp.
Qed.

Lemma unique_voter_option_at_most : unique_at_most_voter_and_option unique_voter_option.
Proof.
  intros st userId pollOptionId v Hv. unfold unique_voter_option in Hv.
  apply andb_true_iff in Hv as [Hu Hp]. by apply bool_decide_eq_true in Hu, Hp.
Qed.

Lemma unique_voter_option_column_key : column_key unique_voter_option.
Proof. by intros st st' userId pollOptionId v. Qed.

(** A key over the columns of the Vote table that covered (voter,
    poll) would collide any two rows of one voter, in whatever polls:
    the rows do not say which poll an option belongs to.  (The seed
    script inserts two votes of Carol, one in the first poll and one in
    the second; seed.js, lines 95-102.) *)
Lemma column_key_covers_all vu :
  column_key vu -> unique_per_voter_and_poll vu ->
  forall st userId pollOptionId v,
    Vote.userId v = userId -> vu st userId pollOptionId v = true.
Proof.
  intros Hkey Hcover st userId pollOptionId v Hu.
  set (st' := {| users := []; polls := [];
                 pollOptions := [PollOption.mk (Vote.pollOptionId v) "" "P";
                                 PollOption.mk pollOptionId "" "P"];
                 votes := []; clock := 0 |}).
  rewrite (Hkey st st'). apply (Hcover st' _ _ _ "P"); [done| |].
  - unfold poll_of_option, find_option. cbn. by rewrite bool_decide_true.
  - unfold poll_of_option, find_option. cbn.
    destruct (bool_decide (Vote.pollOptionId v = pollOptionId)); [done|].
    by rewrite bool_decide_true.
Qed.

Lemma carol_not_voted : not_voted seed "u3" "p1".
Proof.
  intros v Hin Hu. apply list_elem_of_singleton in Hin. by subst v.
Qed.

(** The second of two inserts of one voter for two options does not
    collide with the first under a key on (voter, option). *)
Lemma at_most_not_voted vu (st : Store) (V P oid : string) (o : PollOption.t)
    (others : list Vote.t) :
  unique_at_most_voter_and_option vu ->
  find_option st oid = Some o -> PollOption.pollId o = P ->
  not_voted st V P ->
  Forall (fun v => Vote.pollOptionId v <> oid) others ->
  forall st', existsb (vu st' V oid) (votes st ++ others) = false.
Proof.
  intros Hmost Ho HP Hnot Hothers st'. destruct (existsb _ _) eqn:Hex; [|done].
  exfalso. apply existsb_exists in Hex as (v & Hin & Hv).
  apply Hmost in Hv as [Hu Hoid].
  apply list_elem_of_In, elem_of_app in Hin as [Hin|Hin].
  - apply (Hnot v Hin Hu). unfold poll_of_option. by rewrite Hoid, Ho, <- HP.
  - rewrite Forall_forall in Hothers. by apply (Hothers v Hin).
Qed.

(** C1 fails on the code.  The insert fills in the voter and the
    option of the new row, and the pre-flight lookup and the insert are
    two store calls.  Let the Vote table's uniqueness constraint be any
    that collides at most rows of the same voter and the same option
    (a key on the two foreign-key columns of the row, or none), and let
    a voter without a vote in the published poll [P] send two votes at
    once for two distinct options of [P].  When the two handlers take
    their turns in lockstep, both pre-flight lookups run before either
    insert; both requests are answered 201 and the vote table gains two
    votes of the voter in [P]. *)
Theorem two_votes_under_interleaving vu (w : World) (voter : User.t) (a : Account.t)
    (P oid1 oid2 : string) (o1 o2 : PollOption.t) (poll : Poll.t) :
  unique_at_most_voter_and_option vu ->
  find_user (db w) (User.id voter) = Some a ->
  find_poll (db w) P = Some poll -> Poll.isPublished poll = true ->
  find_option (db w) oid1 = Some o1 -> PollOption.pollId o1 = P ->
  find_option (db w) oid2 = Some o2 -> PollOption.pollId o2 = P ->
  oid1 <> "" -> oid2 <> "" -> oid1 <> oid2 ->
  not_voted (db w) (User.id voter) P ->
  let s := sys_run vu lockstep
             (serve w [vote_request voter oid1; vote_request voter oid2]) in
  exists r1 r2 v1 v2,
    procs s = [Ret r1; Ret r2]
    /\ status r1 = 201 /\ status r2 = 201
    /\ votes (db (world s)) = votes (db w) ++ [v1; v2]
    /\ Vote.userId v1 = User.id voter /\ Vote.userId v2 = User.id voter
    /\ Vote.pollOptionId v1 = oid1 /\ Vote.pollOptionId v2 = oid2
    /\ poll_of_option (db (world s)) oid1 = Some P
    /\ poll_of_option (db (world s)) oid2 = Some P.
Proof.
  intros Hmost Ha Hpoll Hpub Ho1 HP1 Ho2 HP2 Hne1 Hne2 Hne Hnot s.
  pose proof (find_poll_id _ _ _ Hpoll) as Hpid.
  assert (Hp1 : find_poll (db w) (PollOption.pollId o1) = Some poll) by by rewrite HP1.
  assert (Hp2 : find_poll (db w) (PollOption.pollId o2) = Some poll) by by rewrite HP2.
  assert (Hnot' : not_voted (db w) (User.id voter) (Poll.id poll)) by by rewrite Hpid.
  subst s. unfold lockstep, serve.
  (* the two lookups, the two pre-flight checks *)
  erewrite sys_run_turn; [|reflexivity|by apply (step_lookup vu 0 _ w oid1 o1 poll)].
  erewrite sys_run_turn; [|reflexivity|by apply (step_lookup vu 0 _ w oid2 o2 poll)].
  erewrite sys_run_turn; [|reflexivity|by apply step_preflight].
  erewrite sys_run_turn; [|reflexivity|by apply step_preflight].
  (* the two inserts *)
  erewrite sys_run_turn;
    [|reflexivity
     |apply (step_create vu 0 _ w oid1 o1 poll a); try done;
      rewrite <- (app_nil_r (votes (db w)));
      by apply (at_most_not_voted vu (db w) _ P oid1 o1 [])].
  erewrite sys_run_turn;
    [|reflexivity
     |apply (step_create vu 0 _ _ oid2 o2 poll a); try done;
      apply (at_most_not_voted vu (db w) _ P oid2 o2); try done;
      by repeat constructor].
  (* the two tally reads, the two broadcasts *)
  erewrite sys_run_turn; [|reflexivity|apply step_tally].
  erewrite sys_run_turn; [|reflexivity|apply step_tally].
  erewrite sys_run_turn; [|reflexivity|apply step_emit].
  erewrite sys_run_turn; [|reflexivity|apply step_emit].
  cbn [sys_run fold_left procs world db votes voted insert_vote fst snd].
  eexists _, _, _, _. split; [reflexivity|]. split; [reflexivity|].
  split; [reflexivity|]. split; [by rewrite <- app_assoc|].
  do 4 (split; [reflexivity|]).
  unfold poll_of_option, find_option in *. cbn [pollOptions].
  rewrite Ho1, Ho2. cbn. by rewrite HP1, HP2.
Qed.

(** Carol's two votes for the first two options of the first poll,
    under the key on (userId, pollOptionId). *)
Lemma two_votes_under_interleaving_witness :
  exists r1 r2 v1 v2,
    procs (sys_run unique_voter_option lockstep (serve seed_world carol_twice))
    = [Ret r1; Ret r2]
    /\ status r1 = 201 /\ status r2 = 201
    /\ votes (db (world (sys_run unique_voter_option lockstep
                           (serve seed_world carol_twice))))
       = votes seed ++ [v1; v2]
    /\ Vote.userId v1 = "u3" /\ Vote.userId v2 = "u3"
    /\ Vote.pollOptionId v1 = "o1" /\ Vote.pollOptionId v2 = "o2"
    /\ poll_of_option
         (db (world (sys_run unique_voter_option lockstep
                       (serve seed_world carol_twice)))) "o1" = Some "p1"
    /\ poll_of_option
         (db (world (sys_run unique_voter_option lockstep
                       (serve seed_world carol_twice)))) "o2" = Some "p1".
Proof.
  apply (two_votes_under_interleaving unique_voter_option seed_world carol
           (Account.mk "u3" "Carol Wilson" "carol@example.com" "h3" 0 0)
           "p1" "o1" "o2" (PollOption.mk "o1" "JavaScript" "p1")
           (PollOption.mk "o2" "Python" "p1")
           (Poll.mk "p1" "What is your favorite programming language?" true "u1"));
    try reflexivity; try discriminate.
  - exact unique_voter_option_at_most.
  - exact carol_not_voted.
Defined.

(** ** Who is in a room, and how many *)

Lemma poll_room_inj (a b : string) : poll_room a = poll_room b -> a = b.
Proof. unfold poll_room. cbn. by intros [= H]. Qed.

Lemma size_join (sid : string) (s : gset string) :
  Z.of_nat (size ({[sid]} ∪ s))
  = Z.of_nat (size s) + (if bool_decide (sid ∈ s) then 0 else 1).
Proof.
  destruct (bool_decide_reflect (sid ∈ s)) as [Hin|Hout].
  - replace ({[sid]} ∪ s) with s by set_solver. lia.
  - rewrite size_union, size_singleton by set_solver. lia.
Qed.

Lemma size_leave (sid : string) (s : gset string) :
  Z.of_nat (size (s ∖ {[sid]}))
  = Z.of_nat (size s) - (if bool_decide (sid ∈ s) then 1 else 0).
Proof.
  destruct (bool_decide_reflect (sid ∈ s)) as [Hin|Hout].
  - rewrite size_difference, size_singleton by set_solver.
    assert (size s <> 0)%nat; [|lia].
    intros H0. apply size_empty_inv in H0. set_solver.
  - replace (s ∖ {[sid]}) with s by set_solver. lia.
Qed.

(** X1: [getOnlineUsersInPoll] follows the handlers: a [joinPoll]
    raises the count of its poll by one unless the socket is already in
    the room, a [leavePoll] and a closing socket lower it by one if the
    socket was in the room, and an event for one poll leaves the
    members of every other poll's room as they were. *)
Theorem getOnlineUsersInPoll_tracks (sid pollId : string) (rooms : Rooms) :
  getOnlineUsersInPoll (handleConnection sid (joinPoll pollId) rooms) pollId
  = getOnlineUsersInPoll rooms pollId
    + (if bool_decide (sid ∈ members rooms (poll_room pollId)) then 0 else 1)
  /\ getOnlineUsersInPoll (handleConnection sid (leavePoll pollId) rooms) pollId
     = getOnlineUsersInPoll rooms pollId
       - (if bool_decide (sid ∈ members rooms (poll_room pollId)) then 1 else 0)
  /\ getOnlineUsersInPoll (socket_close sid rooms) pollId
     = getOnlineUsersInPoll rooms pollId
       - (if bool_decide (sid ∈ members rooms (poll_room pollId)) then 1 else 0)
  /\ forall other, other <> pollId ->
       members (handleConnection sid (joinPoll pollId) rooms) (poll_room other)
       = members rooms (poll_room other)
       /\ members (handleConnection sid (leavePoll pollId) rooms) (poll_room other)
          = members rooms (poll_room other).
Proof.
  rewrite !getOnlineUsersInPoll_size. cbn [handleConnection socket_close].
  rewrite members_join, members_leave, members_leaveAll, !decide_True by done.
  split; [apply size_join|]. split; [apply size_leave|]. split; [apply size_leave|].
  intros other Hne. rewrite members_join, members_leave.
  rewrite !decide_False; [done|intros Heq; by apply poll_room_inj in Heq..].
Qed.

(** X2: a broadcast to a poll's room is delivered once to each socket
    in it, so the number of deliveries is what [getOnlineUsersInPoll]
    reports for the poll at that moment. *)
Theorem broadcast_reaches_online (vu : Store -> string -> string -> Vote.t -> bool)
    (p p' : Prog Response) (w w' : World) (effs : list Effect)
    (order : nat) (pollId event : string) (payload : JSON) (to : list string) :
  step vu order p w = (p', w', effs) ->
  Emitted (poll_room pollId) event payload to ∈ effs ->
  Z.of_nat (length to) = getOnlineUsersInPoll (rooms w) pollId
  /\ NoDup to
  /\ forall sid, sid ∈ to <-> sid ∈ members (rooms w) (poll_room pollId).
Proof.
  intros Hstep Hin. rewrite (step_emitted _ _ _ _ _ _ _ _ _ _ _ Hstep Hin).
  rewrite getOnlineUsersInPoll_size. unfold recipients.
  split; [done|]. split; [apply NoDup_elements|]. intros sid. apply elem_of_elements.
Qed.

Lemma broadcast_reaches_online_witness :
  Z.of_nat (length ["s1"; "s2"]) = getOnlineUsersInPoll (rooms seed_world) "p1"
  /\ NoDup ["s1"; "s2"]
  /\ forall sid, sid ∈ ["s1"; "s2"] <-> sid ∈ members (rooms seed_world) (poll_room "p1").
Proof.
  refine (broadcast_reaches_online unique_voter_poll
            (Emit (poll_room "p1") "pollUpdate" two_votes_payload
               (Ret (answer_201 (vote_request carol "o2")
                       (Vote.mk "c1" "u3" "o2" 1, PollOption.mk "o2" "Python" "p1",
                        Poll.mk "p1" "What is your favorite programming language?"
                          true "u1"))))
            _ (voted seed_world carol "o2") _ _ 0 "p1" "pollUpdate" two_votes_payload
            ["s1"; "s2"] _ _).
  - vm_compute. reflexivity.
  - vm_compute. apply list_elem_of_here.
Defined.

(** ** Rooms are pruned *)

Lemma no_empty_room_join (sid room : string) (rooms : Rooms) :
  no_empty_room rooms -> no_empty_room (socket_join sid room rooms).
Proof.
  intros H room' s. unfold socket_join. destruct (decide (room = room')) as [<-|Hne].
  - rewrite lookup_insert_eq. intros [= <-]. set_solver.
  - rewrite lookup_insert_ne by done. apply H.
Qed.

Lemma no_empty_room_leave (sid room : string) (rooms : Rooms) :
  no_empty_room rooms -> no_empty_room (socket_leave sid room rooms).
Proof.
  intros H room' s. unfold socket_leave.
  destruct (rooms !! room) as [s0|] eqn:Hroom; [|apply H].
  destruct (decide (s0 ∖ {[sid]} = ∅)) as [Hempty|Hne].
  - destruct (decide (room = room')) as [<-|Hne'].
    + by rewrite lookup_delete_eq.
    + rewrite lookup_delete_ne by done. apply H.
  - destruct (decide (room = room')) as [<-|Hne'].
    + rewrite lookup_insert_eq. by intros [= <-].
    + rewrite lookup_insert_ne by done. apply H.
Qed.

Lemma no_empty_room_close (sid : string) (rooms : Rooms) :
  no_empty_room (socket_close sid rooms).
Proof.
  intros room s. cbn. unfold socket_leaveAll. rewrite lookup_omap.
  destruct (rooms !! room) as [s0|]; cbn; [|done].
  destruct (decide (s0 ∖ {[sid]} = ∅)); [done|]. by intros [= <-].
Qed.

Lemma no_empty_room_handle (sid : string) (ev : SocketEvent) (rooms : Rooms) :
  no_empty_room rooms -> no_empty_room (handleConnection sid ev rooms).
Proof.
  destruct ev; cbn; [apply no_empty_room_join|apply no_empty_room_leave|done].
Qed.

(** X3: the adapter never holds an empty room.  Whatever the
    handlers, the sockets and the requests do, in any order, a room that
    exists has a member: rooms appear with their first member and
    disappear with their last. *)
Theorem rooms_pruned (vu : Store -> string -> string -> Vote.t -> bool)
    (schedule : list Action) (s : System) :
  no_empty_room (rooms (world s)) ->
  no_empty_room (rooms (world (sys_run vu schedule s))).
Proof.
  revert s. induction schedule as [|a schedule IH]; intros s Hs; [done|].
  change (sys_run vu (a :: schedule) s) with (sys_run vu schedule (sys_step vu s a)).
  apply IH. destruct a as [pid order|sid ev|sid]; cbn.
  - destruct (procs s !! pid) as [p|]; [|done].
    destruct (step vu order p (world s)) as [[p' w'] effs] eqn:Hstep.
    destruct (step_frame _ _ _ _ _ _ _ Hstep) as (_ & Hrooms & _). cbn.
    by rewrite Hrooms.
  - by apply no_empty_room_handle.
  - apply no_empty_room_close.
Qed.

Lemma rooms_pruned_witness :
  no_empty_room
    (rooms (world (sys_run unique_voter_poll
                     [Socket "s1" (leavePoll "p1"); Turn 0 0; Close "s2"]
                     (serve {| db := seed; rooms := ∅ |} [vote_request carol "o2"])))).
Proof.
  apply (rooms_pruned unique_voter_poll). intros room s. cbn.
  by rewrite lookup_empty.
Defined.

(** X4: joining a poll and leaving it again is a round trip.  For a
    socket that was not in the poll's room, [joinPoll] followed by
    [leavePoll] gives back the rooms exactly as they were, and so does
    [joinPoll] followed by the socket closing when it was in no room at
    all. *)
Theorem joinPoll_leavePoll_restores (sid pollId : string) (rooms : Rooms) :
  no_empty_room rooms ->
  (sid ∉ members rooms (poll_room pollId) ->
   handleConnection sid (leavePoll pollId)
     (handleConnection sid (joinPoll pollId) rooms) = rooms)
  /\ ((forall room, sid ∉ members rooms room) ->
      socket_close sid (handleConnection sid (joinPoll pollId) rooms) = rooms).
Proof.
  intros Hne. split.
  - intros Hout. cbn. unfold socket_leave, socket_join, members in *.
    rewrite lookup_insert_eq.
    destruct (rooms !! poll_room pollId) as [s|] eqn:Hroom; cbn in *.
    + rewrite decide_False.
      * rewrite insert_insert_eq. replace (({[sid]} ∪ s) ∖ {[sid]}) with s by set_solver.
        by apply insert_id.
      * specialize (Hne _ _ Hroom). set_solver.
    + rewrite decide_True by set_solver. rewrite delete_insert_eq.
      by apply delete_id.
  - intros Hout. cbn. unfold socket_leaveAll, socket_join. apply map_eq. intros room.
    rewrite lookup_omap. destruct (decide (poll_room pollId = room)) as [<-|Hother].
    + rewrite lookup_insert_eq. cbn. specialize (Hout (poll_room pollId)).
      unfold members in *.
      destruct (rooms !! poll_room pollId) as [s|] eqn:Hroom; cbn in *.
      * specialize (Hne _ _ Hroom). rewrite decide_False by set_solver.
        f_equal. set_solver.
      * rewrite decide_True by set_solver. done.
    + rewrite lookup_insert_ne by done. specialize (Hout room). unfold members in Hout.
      destruct (rooms !! room) as [s|] eqn:Hroom; cbn in *; [|done].
      specialize (Hne _ _ Hroom). rewrite decide_False by set_solver.
      f_equal. set_solver.
Qed.

Lemma joinPoll_leavePoll_restores_witness :
  handleConnection "s3" (leavePoll "p1")
    (handleConnection "s3" (joinPoll "p1") (rooms seed_world)) = rooms seed_world.
Proof.
  refine (proj1 (joinPoll_leavePoll_restores "s3" "p1" (rooms seed_world) _) _).
  - apply (no_empty_room_join "s2"), (no_empty_room_join "s1").
    intros room s. by rewrite lookup_empty.
  - vm_compute. set_solver.
Defined.

(** ** A socket that stays in a room *)

Lemma handleConnection_stays (sid sid' pollId : string) (ev : SocketEvent)
    (rooms : Rooms) :
  (sid' = sid -> ev <> leavePoll pollId) ->
  sid ∈ members rooms (poll_room pollId) ->
  sid ∈ members (handleConnection sid' ev rooms) (poll_room pollId).
Proof.
  intros Hev Hin. destruct ev as [q|q|]; cbn; [| |done].
  - rewrite members_join. destruct (decide _) as [Heq|]; [|done].
    rewrite Heq. set_solver.
  - rewrite members_leave. destruct (decide _) as [Heq|]; [|done].
    apply poll_room_inj in Heq as ->.
    destruct (decide (sid' = sid)) as [->|Hne]; [by destruct (Hev eq_refl)|].
    set_solver.
Qed.

(** X5: a socket in a poll's room receives every broadcast to that
    room for as long as it neither leaves the poll nor closes, whatever
    else happens in between: other sockets' events, its own events for
    other polls, and any turns of the request handlers. *)
Theorem member_reached (vu : Store -> string -> string -> Vote.t -> bool)
    (sid pollId : string) (schedule : list Action) (s : System) :
  sid ∈ members (rooms (world s)) (poll_room pollId) ->
  Socket sid (leavePoll pollId) ∉ schedule -> Close sid ∉ schedule ->
  sid ∈ members (rooms (world (sys_run vu schedule s))) (poll_room pollId)
  /\ exists later,
       trace (sys_run vu schedule s) = trace s ++ later
       /\ forall pid event payload to,
            (pid, Emitted (poll_room pollId) event payload to) ∈ later -> sid ∈ to.
Proof.
  revert s. induction schedule as [|a schedule IH]; intros s Hin Hleave Hclose.
  { split; [done|]. exists []. split; [by rewrite app_nil_r|]. intros ???? H.
    by apply elem_of_nil in H. }
  apply not_elem_of_cons in Hleave as [Hl Hleave], Hclose as [Hc Hclose].
  change (sys_run vu (a :: schedule) s) with (sys_run vu schedule (sys_step vu s a)).
  destruct a as [pid order|sid' ev|sid'].
  - unfold sys_step. destruct (procs s !! pid) as [p|] eqn:Hp; [|by apply IH].
    destruct (step vu order p (world s)) as [[p' w'] effs] eqn:Hstep.
    destruct (step_frame _ _ _ _ _ _ _ Hstep) as (_ & Hrooms & _).
    destruct (IH {| world := w'; procs := <[pid:=p']> (procs s);
                    trace := trace s ++ map (pair pid) effs |})
      as (Hstay & later & Htrace & Hlater); [cbn; by rewrite Hrooms|done..|].
    split; [done|]. exists (map (pair pid) effs ++ later). split.
    + rewrite Htrace. cbn. by rewrite app_assoc.
    + intros pid' event payload to Hto.
      apply elem_of_app in Hto as [Hto|Hto]; [|by eapply Hlater].
      apply list_elem_of_fmap in Hto as (e & [= -> <-] & Hto).
      rewrite (step_emitted _ _ _ _ _ _ _ _ _ _ _ Hstep Hto).
      unfold recipients. by rewrite elem_of_elements.
  - destruct (IH (sys_step vu s (Socket sid' ev)))
      as (Hstay & later & Htrace & Hlater); [|done..|by eauto].
    cbn. apply handleConnection_stays; [|done].
    intros -> ->. by apply Hl.
  - destruct (IH (sys_step vu s (Close sid')))
      as (Hstay & later & Htrace & Hlater); [|done..|by eauto].
    cbn. rewrite members_leaveAll.
    assert (sid' <> sid) by (intros ->; by apply Hc). set_solver.
Qed.

Lemma member_reached_witness :
  "s1" ∈ members (rooms (world (sys_run unique_voter_poll
                                   ([Socket "s2" (leavePoll "p1")] ++ alone)
                                   (serve seed_world [vote_request carol "o2"]))))
           (poll_room "p1")
  /\ exists later,
       trace (sys_run unique_voter_poll ([Socket "s2" (leavePoll "p1")] ++ alone)
                (serve seed_world [vote_request carol "o2"]))
       = [] ++ later
       /\ forall pid event payload to,
            (pid, Emitted (poll_room "p1") event payload to) ∈ later -> "s1" ∈ to.
Proof.
  apply (member_reached unique_voter_poll "s1" "p1").
  - vm_compute. set_solver.
  - intros Hin. unfold alone in Hin. cbn in Hin.
    repeat (apply elem_of_cons in Hin as [Hin|Hin]; [discriminate|]).
    by apply elem_of_nil in Hin.
  - intros Hin. unfold alone in Hin. cbn in Hin.
    repeat (apply elem_of_cons in Hin as [Hin|Hin]; [discriminate|]).
    by apply elem_of_nil in Hin.
Defined.

(** ** The caller's votes *)

Lemma find_option_elem st id o : find_option st id = Some o -> o ∈ pollOptions st.
Proof.
  unfold find_option. intros H. apply find_some in H as [H _].
  by apply list_elem_of_In.
Qed.

Lemma include_pollOption_Some (st : Store) (v : Vote.t) :
  foreign_keys st -> v ∈ votes st ->
  exists o p, find_option st (Vote.pollOptionId v) = Some o
              /\ find_poll st (PollOption.pollId o) = Some p
              /\ include_pollOption st v = inl (v, o, p).
Proof.
  intros [Hopts Hvotes] Hin. unfold include_pollOption.
  destruct (Hvotes v Hin) as [o Ho]. rewrite Ho.
  destruct (Hopts o (find_option_elem _ _ _ Ho)) as [p Hp]. rewrite Hp. by eauto.
Qed.

Lemma traverse_include (st : Store) (l : list Vote.t) :
  foreign_keys st -> (forall v, v ∈ l -> v ∈ votes st) ->
  exists rows,
    traverse (include_pollOption st) l = inl rows
    /\ map row_vote rows = l
    /\ Forall (fun row =>
                 find_option st (Vote.pollOptionId (row_vote row)) = Some row.1.2
                 /\ find_poll st (PollOption.pollId row.1.2) = Some row.2) rows.
Proof.
  intros Hfk. induction l as [|v l IH]; intros Hsub.
  { exists []. by repeat split. }
  destruct IH as (rows & Hrows & Hmap & Hall).
  { intros v' Hin. apply Hsub. by apply list_elem_of_further. }
  destruct (include_pollOption_Some st v Hfk) as (o & p & Ho & Hp & Hinc).
  { apply Hsub. apply list_elem_of_here. }
  exists ((v, o, p) :: rows). cbn. rewrite Hinc, Hrows, Hmap.
  split; [done|]. split; [done|]. by constructor.
Qed.

#[local] Instance newer_total : Total newer.
Proof. intros a b. unfold newer. lia. Qed.

#[local] Instance newer_trans : Transitive newer.
Proof. intros a b c. unfold newer. lia. Qed.

(** What the query of [getUserVotes] returns on a store whose foreign
    keys hold. *)
Lemma vote_findMany_rows (st : Store) (userId : string) :
  foreign_keys st ->
  exists rows,
    vote_findMany st userId = inl rows
    /\ map row_vote rows ≡ₚ filter (fun v => Vote.userId v = userId) (votes st)
    /\ StronglySorted newer (map row_vote rows)
    /\ Forall (fun row =>
                 find_option st (Vote.pollOptionId (row_vote row)) = Some row.1.2
                 /\ find_poll st (PollOption.pollId row.1.2) = Some row.2) rows.
Proof.
  intros Hfk. unfold vote_findMany.
  destruct (traverse_include st
              (merge_sort newer (filter (fun v => Vote.userId v = userId) (votes st)))
              Hfk) as (rows & Hrows & Hmap & Hall).
  { intros v. rewrite merge_sort_Permutation, list_elem_of_filter. by intros [_ ?]. }
  exists rows. split; [done|]. rewrite Hmap. split; [apply merge_sort_Permutation|].
  split; [|done]. apply StronglySorted_merge_sort; apply _.
Qed.

(** X6: on a store whose foreign keys hold, [getUserVotes] answers
    200 with exactly the caller's votes, each once and no vote of
    anybody else, from the newest to the oldest, every vote with the
    option it is for and that option's poll. *)
Theorem getUserVotes_own_votes (st : Store) (req : Request) :
  foreign_keys st ->
  exists rows,
    getUserVotes st req
    = {| status := 200; json := JObj [("votes", JArr (map user_vote_json rows))] |}
    /\ map row_vote rows
       ≡ₚ filter (fun v => Vote.userId v = User.id (user req)) (votes st)
    /\ StronglySorted newer (map row_vote rows)
    /\ Forall (fun row =>
                 find_option st (Vote.pollOptionId (row_vote row)) = Some row.1.2
                 /\ find_poll st (PollOption.pollId row.1.2) = Some row.2) rows.
Proof.
  intros Hfk.
  destruct (vote_findMany_rows st (User.id (user req)) Hfk)
    as (rows & Hrows & Hperm & Hsorted & Hall).
  exists rows. unfold getUserVotes. by rewrite Hrows.
Qed.

Lemma seed_foreign_keys : foreign_keys seed.
Proof.
  split.
  - intros o Hin. cbn in Hin.
    repeat (apply elem_of_cons in Hin as [->|Hin]; [by eexists|]).
    by apply elem_of_nil in Hin.
  - intros v Hin. cbn in Hin.
    repeat (apply elem_of_cons in Hin as [->|Hin]; [by eexists|]).
    by apply elem_of_nil in Hin.
Qed.

Lemma getUserVotes_own_votes_witness :
  exists rows,
    getUserVotes seed (results_request bob "")
    = {| status := 200; json := JObj [("votes", JArr (map user_vote_json rows))] |}
    /\ map row_vote rows
       ≡ₚ filter (fun v => Vote.userId v = User.id (user (results_request bob "")))
            (votes seed)
    /\ StronglySorted newer (map row_vote rows)
    /\ Forall (fun row =>
                 find_option seed (Vote.pollOptionId (row_vote row)) = Some row.1.2
                 /\ find_poll seed (PollOption.pollId row.1.2) = Some row.2) rows.
Proof. exact (getUserVotes_own_votes seed (results_request bob "") seed_foreign_keys). Defined.

Lemma filter_none {A : Type} (P : A -> Prop) `{forall x, Decision (P x)} (l : list A) :
  (forall x, x ∈ l -> ~ P x) -> filter P l = [].
Proof.
  induction l as [|x l IH]; intros Hnone; [done|].
  rewrite filter_cons, decide_False by (apply Hnone, list_elem_of_here).
  apply IH. intros y Hy. by apply Hnone, list_elem_of_further.
Qed.

(** X7: a caller who has not voted gets 200 with an empty list,
    whatever else the store holds: rows of other voters are filtered
    out before their options and polls are looked up. *)
Theorem getUserVotes_no_votes (st : Store) (req : Request) :
  (forall v, v ∈ votes st -> Vote.userId v <> User.id (user req)) ->
  getUserVotes st req = {| status := 200; json := JObj [("votes", JArr [])] |}.
Proof.
  intros Hnone. unfold getUserVotes, vote_findMany. by rewrite filter_none.
Qed.

Lemma getUserVotes_no_votes_witness :
  getUserVotes seed (results_request carol "")
  = {| status := 200; json := JObj [("votes", JArr [])] |}.
Proof.
  apply getUserVotes_no_votes. intros v Hin. cbn in Hin.
  apply elem_of_cons in Hin as [->|Hin]; [discriminate|]. by apply elem_of_nil in Hin.
Defined.

(** ** Foreign keys under voting *)

Lemma trace_effects_of (pid : nat) (s : System) (e : Effect) :
  (pid, e) ∈ trace s -> e ∈ effects_of pid s.
Proof.
  intros Hin. unfold effects_of. apply list_elem_of_fmap. exists (pid, e).
  split; [done|]. by apply list_elem_of_filter.
Qed.

(** Every vote of the trace was admitted by the handler that inserted
    it. *)
Lemma inserted_admitted (st0 : Store) (requests : list Request) (s : System)
    (v : Vote.t) :
  well_phased st0 requests s ->
  v ∈ inserted (snd <$> trace s) ->
  exists pid req o poll,
    requests !! pid = Some req /\ admits st0 req o poll v
    /\ Inserted v ∈ effects_of pid s.
Proof.
  intros (_ & _ & Hpids & Hph) Hin. apply elem_of_inserted in Hin.
  apply list_elem_of_fmap in Hin as ([pid e] & He & Hin). cbn in He. subst e.
  destruct (Hpids _ _ Hin) as [p Hp].
  destruct (Hph _ _ Hp) as (req & Hreq & Hphase).
  pose proof (trace_effects_of _ _ _ Hin) as Heff.
  destruct (phase_effects _ _ _ _ Hphase)
    as [Hnil|(o & poll & v' & Hadm & [[Heq _]|(st & order & to & _ & _ & _ & Heq)])];
    rewrite ?Hnil, ?Heq in Heff.
  - by apply elem_of_nil in Heff.
  - apply list_elem_of_singleton in Heff as [= ->]. exists pid, req, o, poll.
    rewrite Heq. split; [done|]. split; [done|]. apply list_elem_of_here.
  - apply elem_of_cons in Heff as [[= ->]|Heff].
    + exists pid, req, o, poll. rewrite Heq. split; [done|]. split; [done|].
      apply list_elem_of_here.
    + apply list_elem_of_singleton in Heff. discriminate.
Qed.

Lemma foreign_keys_run vu (w : World) (requests : list Request)
    (schedule : list Action) :
  foreign_keys (db w) ->
  foreign_keys (db (world (sys_run vu schedule (serve w requests)))).
Proof.
  intros [Hopts Hvotes].
  pose proof (well_phased_run vu _ _ schedule _ (well_phased_serve w requests)) as Hwf.
  destruct Hwf as (Htab & Hv & Hrest).
  assert (Hwf : well_phased (db w) requests (sys_run vu schedule (serve w requests)))
    by (by split).
  split.
  - intros o. pose proof Htab as (_ & _ & Ho). rewrite Ho.
    rewrite (same_tables_find_poll _ (db w)) by done. apply Hopts.
  - intros v. rewrite Hv, elem_of_app.
    rewrite (same_tables_find_option _ (db w)) by done. intros [Hin|Hin].
    + by apply Hvotes.
    + destruct (inserted_admitted _ _ _ _ Hwf Hin)
        as (pid & req & o & poll & _ & (_ & Ho & _) & _). by eexists.
Qed.

(** X8: voting keeps the foreign keys of the store.  If every option
    has its poll and every vote its option before, the same holds after
    any interleaving of [submitVote] handlers and socket events, finished
    or not; the polls and the options are the rows they were, and the
    votes there were are still there, in their places. *)
Theorem submitVote_keeps_foreign_keys (vu : Store -> string -> string -> Vote.t -> bool)
    (w : World) (requests : list Request) (schedule : list Action) :
  foreign_keys (db w) ->
  foreign_keys (db (world (sys_run vu schedule (serve w requests))))
  /\ polls (db (world (sys_run vu schedule (serve w requests)))) = polls (db w)
  /\ pollOptions (db (world (sys_run vu schedule (serve w requests))))
     = pollOptions (db w)
  /\ votes (db w) `prefix_of` votes (db (world (sys_run vu schedule (serve w requests)))).
Proof.
  intros Hfk. split; [by apply foreign_keys_run|].
  destruct (well_phased_run vu _ _ schedule _ (well_phased_serve w requests))
    as ((_ & Hpolls & Hopts) & Hvotes & _).
  split; [done|]. split; [done|]. rewrite Hvotes. by apply prefix_app_r.
Qed.

Lemma submitVote_keeps_foreign_keys_witness :
  foreign_keys (db (world (sys_run unique_voter_poll race
                             (serve seed_world carol_requests))))
  /\ polls (db (world (sys_run unique_voter_poll race (serve seed_world carol_requests))))
     = polls (db seed_world)
  /\ pollOptions (db (world (sys_run unique_voter_poll race
                               (serve seed_world carol_requests))))
     = pollOptions (db seed_world)
  /\ votes (db seed_world)
     `prefix_of` votes (db (world (sys_run unique_voter_poll race
                                     (serve seed_world carol_requests)))).
Proof.
  exact (submitVote_keeps_foreign_keys unique_voter_poll seed_world carol_requests race
           seed_foreign_keys).
Defined.

(** A handler that answered 201 answered with the vote it inserted. *)
Lemma phase_answered_201 (st0 : Store) (req : Request) (r : Response)
    (effs : list Effect) :
  phase st0 req (Ret r) effs -> status r = 201 ->
  exists o poll v,
    admits st0 req o poll v /\ r = answer_201 req (v, o, poll)
    /\ Inserted v ∈ effs.
Proof.
  intros Hphase H201.
  destruct (phase_Ret _ _ _ _ Hphase) as [(_ & v0 & rest & Heffs)|[_ Hst]].
  - destruct (phase_effects _ _ _ _ Hphase)
      as [Hnil|(o & poll & v & Hadm & [[_ Hnot]|(st & order & to & _ & _ & Hr & Heq)])].
    + by rewrite Hnil in Heffs.
    + by destruct (Hnot r).
    + injection Hr as ->. exists o, poll, v. split; [done|]. split; [done|].
      rewrite Heq. apply list_elem_of_here.
  - rewrite H201 in Hst. exfalso.
    repeat (apply elem_of_cons in Hst as [Hst|Hst]; [discriminate|]).
    by apply elem_of_nil in Hst.
Qed.

(** X9: an accepted vote shows up among the voter's votes.  In any
    interleaving over a store whose foreign keys hold, once a
    [submitVote] handler has answered 201, [getUserVotes] for the same
    user answers 200 with a list that holds the very vote, option and
    poll of the 201 answer. *)
Theorem accepted_vote_listed (vu : Store -> string -> string -> Vote.t -> bool)
    (w : World) (requests : list Request) (schedule : list Action)
    (pid : nat) (req : Request) (r : Response) :
  foreign_keys (db w) ->
  requests !! pid = Some req ->
  procs (sys_run vu schedule (serve w requests)) !! pid = Some (Ret r) ->
  status r = 201 ->
  exists rows row,
    getUserVotes (db (world (sys_run vu schedule (serve w requests)))) req
    = {| status := 200; json := JObj [("votes", JArr (map user_vote_json rows))] |}
    /\ row ∈ rows
    /\ r = answer_201 req row
    /\ Vote.userId (row_vote row) = User.id (user req)
    /\ prop "pollOptionId" (body req) = Some (JStr (Vote.pollOptionId (row_vote row))).
Proof.
  intros Hfk Hreq Hp H201.
  pose proof (well_phased_run vu _ _ schedule _ (well_phased_serve w requests)) as Hwf.
  destruct Hwf as (Htab & Hv & Hpids & Hph).
  destruct (Hph _ _ Hp) as (req' & Hreq' & Hphase).
  rewrite Hreq in Hreq'. injection Hreq' as <-.
  destruct (phase_answered_201 _ _ _ _ Hphase H201)
    as (o & poll & v & (Hid & Ho & Hpoll & Hpub & Hu) & -> & Hin).
  destruct (vote_findMany_rows _ (User.id (user req)) (foreign_keys_run vu w requests schedule Hfk))
    as (rows & Hrows & Hperm & _ & Hall).
  assert (Hv' : v ∈ map row_vote rows).
  { rewrite Hperm. apply list_elem_of_filter. split; [done|]. rewrite Hv.
    apply elem_of_app. right. apply elem_of_inserted. by eapply effects_of_trace. }
  apply list_elem_of_fmap in Hv' as ([[v' o'] p'] & Heq & Hrow).
  unfold row_vote in Heq. cbn in Heq. subst v'.
  rewrite Forall_forall in Hall. destruct (Hall _ Hrow) as [Ho' Hp'].
  unfold row_vote in Ho'. cbn in Ho', Hp'.
  rewrite (same_tables_find_option _ (db w)), Ho in Ho' by done. injection Ho' as <-.
  rewrite (same_tables_find_poll _ (db w)), Hpoll in Hp' by done. injection Hp' as <-.
  exists rows, (v, o, poll). unfold getUserVotes. rewrite Hrows. by repeat split.
Qed.

Lemma accepted_vote_listed_witness :
  exists rows row,
    getUserVotes (db (world (sys_run unique_voter_poll alone
                               (serve seed_world [vote_request carol "o2"]))))
      (vote_request carol "o2")
    = {| status := 200; json := JObj [("votes", JArr (map user_vote_json rows))] |}
    /\ row ∈ rows
    /\ answer_201 (vote_request carol "o2")
         (Vote.mk "c1" "u3" "o2" 1, PollOption.mk "o2" "Python" "p1",
          Poll.mk "p1" "What is your favorite programming language?" true "u1")
       = answer_201 (vote_request carol "o2") row
    /\ Vote.userId (row_vote row) = User.id (user (vote_request carol "o2"))
    /\ prop "pollOptionId" (body (vote_request carol "o2"))
       = Some (JStr (Vote.pollOptionId (row_vote row))).
Proof.
  refine (accepted_vote_listed unique_voter_poll seed_world [vote_request carol "o2"]
            alone 0 (vote_request carol "o2")
            (answer_201 (vote_request carol "o2")
               (Vote.mk "c1" "u3" "o2" 1, PollOption.mk "o2" "Python" "p1",
                Poll.mk "p1" "What is your favorite programming language?" true "u1"))
            seed_foreign_keys eq_refl _ eq_refl).
  vm_compute. reflexivity.
Defined.

(** ** An accepted vote *)

Lemma only_not_voted vu (st : Store) (V P oid : string) (o : PollOption.t) :
  unique_only_voter_and_poll vu ->
  find_option st oid = Some o -> PollOption.pollId o = P ->
  not_voted st V P ->
  existsb (vu st V oid) (votes st) = false.
Proof.
  intros Honly Ho HP Hnot. destruct (existsb _ _) eqn:Hex; [|done].
  exfalso. apply existsb_exists in Hex as (v & Hin & Hv).
  apply Honly in Hv as [Hu Hp].
  apply (Hnot v); [by apply list_elem_of_In|done|].
  rewrite Hp. unfold poll_of_option. by rewrite Ho, <- HP.
Qed.

Lemma insert_vote_find_poll (st : Store) (userId oid id : string) :
  find_poll (insert_vote st userId oid).2 id = find_poll st id.
Proof. done. Qed.

Lemma sum_Permutation (l l' : list Z) :
  l ≡ₚ l' -> foldr Z.add 0 l = foldr Z.add 0 l'.
Proof. induction 1; cbn; lia. Qed.

(** Two reads of one poll from one store differ in the order of the
    options at most: the total and every option's count and percentage
    are the same. *)
Lemma tally_order (order order' : nat) (st : Store) (P : string) (r r' : PollResults) :
  tally <$> poll_findUnique order st P = Some r ->
  tally <$> poll_findUnique order' st P = Some r' ->
  pollId r = pollId r' /\ question r = question r'
  /\ totalVotes r = totalVotes r' /\ options r ≡ₚ options r'.
Proof.
  unfold poll_findUnique. destruct (find_poll st P) as [poll|]; [|done].
  cbn [fmap option_fmap option_map]. intros [= <-] [= <-].
  assert (Hperm : map (fun o => (o, count_votes st (PollOption.id o)))
                      (returned order (options_of st P))
                  ≡ₚ map (fun o => (o, count_votes st (PollOption.id o)))
                         (returned order' (options_of st P))).
  { apply Permutation_map. by rewrite !returned_Permutation. }
  assert (Htotal : foldr Z.add 0
                     (snd <$> map (fun o => (o, count_votes st (PollOption.id o)))
                                  (returned order (options_of st P)))
                   = foldr Z.add 0
                       (snd <$> map (fun o => (o, count_votes st (PollOption.id o)))
                                    (returned order' (options_of st P)))).
  { apply sum_Permutation. by apply fmap_Permutation. }
  split; [done|]. split; [done|]. rewrite !tally_total, !tally_options.
  split; [done|]. rewrite Htotal. by apply Permutation_map.
Qed.

(** X10: the accepted path of [submitVote].  A voter whose account
    exists and who has no vote in a published poll, asking for one of
    its options under a constraint that covers no more than (voter,
    poll), with no other request in between, is answered 201 with the
    new vote; the store gains exactly that row; one ['pollUpdate'] goes
    to the sockets then in the poll's room, carrying the tally read
    after the insert; and [getPollResults] for the poll, asked right
    afterwards, answers 200 with a tally that has the same poll, the
    same total and the same options with the same counts and
    percentages, in the order of its own read. *)
Theorem submitVote_accepts (vu : Store -> string -> string -> Vote.t -> bool)
    (order order' : nat) (req : Request) (w : World) (oid : string)
    (o : PollOption.t) (p : Poll.t) (a : Account.t) :
  unique_only_voter_and_poll vu ->
  find_user (db w) (User.id (user req)) = Some a ->
  prop "pollOptionId" (body req) = Some (JStr oid) -> oid <> "" ->
  find_option (db w) oid = Some o ->
  find_poll (db w) (PollOption.pollId o) = Some p ->
  Poll.isPublished p = true ->
  not_voted (db w) (User.id (user req)) (Poll.id p) ->
  exists broadcast later,
    run vu order 5 (submitVote req) w
    = (Ret (answer_201 req ((insert_vote (db w) (User.id (user req)) oid).1, o, p)),
       voted w (user req) oid,
       [Inserted (insert_vote (db w) (User.id (user req)) oid).1;
        Emitted (poll_room (Poll.id p)) "pollUpdate"
          (JObj [("pollId", JStr (Poll.id p));
                 ("results", results_json (Some broadcast))])
          (recipients (rooms w) (poll_room (Poll.id p)))])
    /\ tally <$> poll_findUnique order (db (voted w (user req) oid)) (Poll.id p)
       = Some broadcast
    /\ (forall caller,
          run vu order' 4 (getPollResults (results_request caller (Poll.id p)))
            (voted w (user req) oid)
          = (respond 200 (JObj [("results", results_json (Some later))]),
             voted w (user req) oid, []))
    /\ pollId later = pollId broadcast /\ question later = question broadcast
    /\ totalVotes later = totalVotes broadcast
    /\ options later ≡ₚ options broadcast.
Proof.
  intros Honly Ha Hid Hne Ho Hp Hpub Hnot.
  pose proof (find_poll_id _ _ _ Hp) as Hpid.
  assert (Hex : existsb (vu (db w) (User.id (user req)) oid) (votes (db w)) = false).
  { by apply (only_not_voted vu (db w) _ (Poll.id p) oid o Honly Ho). }
  assert (Hsome : forall n, exists row,
             poll_findUnique n (db (voted w (user req) oid)) (Poll.id p) = Some row).
  { intros n. unfold poll_findUnique, voted. cbn [db].
    rewrite insert_vote_find_poll, Hpid, Hp. by eexists. }
  destruct (Hsome order) as [row Hrow]. destruct (Hsome order') as [row' Hrow'].
  exists (tally row), (tally row').
  split; [|split; [by rewrite Hrow|split]].
  - rewrite (submitVote_unfold req oid Hid Hne).
    cbn [run step exec sync]. unfold pollOption_findUnique. rewrite Ho, Hp.
    cbn [bind try_catch submitVote_check]. rewrite Hpub.
    cbn [negb bind try_catch await sync step exec app].
    rewrite (not_voted_find _ _ _ Hnot).
    cbn [bind try_catch submitVote_admit await sync step exec app].
    unfold vote_create. rewrite Ho, Hp, Ha, Hex.
    destruct (insert_vote (db w) (User.id (user req)) oid) as [v st'] eqn:Hins.
    unfold voted in *. rewrite Hins in *. cbn [fst snd db rooms] in *.
    cbn [bind try_catch submitVote_created _getPollResultsInternal await sync
         step exec app db rooms].
    rewrite Hrow.
    cbn [bind try_catch submitVote_emit io_to_emit respond sync app fmap option_fmap
         option_map run step].
    reflexivity.
  - intros caller. cbn [run step exec sync getPollResults _getPollResultsInternal
                        results_request params_pollId bind try_catch await].
    rewrite Hrow'. reflexivity.
  - apply (tally_order order' order (db (voted w (user req) oid)) (Poll.id p));
      [by rewrite Hrow'|by rewrite Hrow].
Qed.

Lemma submitVote_accepts_witness :
  exists later,
    run unique_voter_poll 0 5 (submitVote (vote_request carol "o2")) seed_world
    = (Ret (answer_201 (vote_request carol "o2")
              (Vote.mk "c1" "u3" "o2" 1, PollOption.mk "o2" "Python" "p1",
               Poll.mk "p1" "What is your favorite programming language?" true "u1")),
       voted seed_world carol "o2",
       [Inserted (Vote.mk "c1" "u3" "o2" 1);
        Emitted "poll-p1" "pollUpdate" two_votes_payload ["s1"; "s2"]])
    /\ run unique_voter_poll 3 4 (getPollResults (results_request bob "p1"))
         (voted seed_world carol "o2")
       = (respond 200 (JObj [("results", results_json (Some later))]),
          voted seed_world carol "o2", [])
    /\ totalVotes later = 2.
Proof.
  destruct (submitVote_accepts unique_voter_poll 0 3 (vote_request carol "o2")
              seed_world "o2" (PollOption.mk "o2" "Python" "p1")
              (Poll.mk "p1" "What is your favorite programming language?" true "u1")
              (Account.mk "u3" "Carol Wilson" "carol@example.com" "h3" 0 0)
              unique_voter_poll_only eq_refl eq_refl)
    as (broadcast & later & Hrun & Hread & Hlater & _ & _ & Htotal & _);
    [discriminate|reflexivity|reflexivity|reflexivity|exact carol_not_voted|].
  exists later. split; [|split; [apply Hlater|]].
  - rewrite Hrun. vm_compute in Hread. injection Hread as <-. reflexivity.
  - rewrite Htotal. vm_compute in Hread. injection Hread as <-. reflexivity.
Defined.

(** ** Votes and tallies *)

Lemma filter_id_unique (l : list PollOption.t) (Q : PollOption.t -> Prop)
    `{forall o, Decision (Q o)} (o : PollOption.t) :
  NoDup (PollOption.id <$> l) -> o ∈ l ->
  filter (fun o' => PollOption.id o' = PollOption.id o) (filter Q l)
  = if decide (Q o) then [o] else [].
Proof.
  induction l as [|a l IH]; intros Hnd Hin; [by apply elem_of_nil in Hin|].
  rewrite fmap_cons in Hnd. apply NoDup_cons in Hnd as [Ha Hnd].
  assert (Hfresh : forall x, x ∈ filter Q l -> PollOption.id x <> PollOption.id a).
  { intros x Hx Heq. apply Ha. rewrite <- Heq. apply list_elem_of_fmap.
    exists x. split; [done|]. by apply list_elem_of_filter in Hx as [_ ?]. }
  apply elem_of_cons in Hin as [->|Hin].
  - rewrite filter_cons. destruct (decide (Q a)).
    + rewrite filter_cons, decide_True by done. f_equal. by apply filter_none.
    + by apply filter_none.
  - assert (PollOption.id a <> PollOption.id o).
    { intros Heq. apply Ha. rewrite Heq. apply list_elem_of_fmap. by exists o. }
    rewrite filter_cons. destruct (decide (Q a)); [|by apply IH].
    rewrite filter_cons, decide_False by done. by apply IH.
Qed.

Lemma find_option_Some st id o :
  find_option st id = Some o -> o ∈ pollOptions st /\ PollOption.id o = id.
Proof.
  unfold find_option. intros H. apply find_some in H as [Hin Hid].
  split; [by apply list_elem_of_In|]. by apply bool_decide_eq_true in Hid.
Qed.

(** How many options of poll [P] have the id [oid]: one if [oid] names
    an option of [P], none otherwise. *)
Lemma count_hits (st : Store) (P oid : string) :
  unique_option_ids st ->
  length (filter (fun o => PollOption.id o = oid) (options_of st P))
  = if decide (poll_of_option st oid = Some P) then 1%nat else 0%nat.
Proof.
  intros Hnd. unfold poll_of_option, options_of.
  destruct (find_option st oid) as [o|] eqn:Ho; cbn.
  - apply find_option_Some in Ho as [Hin <-].
    rewrite (filter_id_unique _ _ o Hnd Hin).
    destruct (decide (PollOption.pollId o = P)) as [->|Hne].
    + by rewrite decide_True.
    + rewrite decide_False; [done|]. by intros [= ?].
  - rewrite decide_False by done. rewrite filter_none; [done|].
    intros o Hin Hid. apply list_elem_of_filter in Hin as [_ Hin].
    unfold find_option in Ho. apply list_elem_of_In in Hin.
    pose proof (find_none _ _ Ho _ Hin) as Hno. cbn in Hno.
    by rewrite bool_decide_true in Hno.
Qed.

Lemma sum_hits (opts : list PollOption.t) (oid : string) :
  foldr Z.add 0 (map (fun o => if decide (oid = PollOption.id o) then 1 else 0) opts)
  = Z.of_nat (length (filter (fun o => PollOption.id o = oid) opts)).
Proof.
  induction opts as [|o opts IH]; [done|]. cbn [map foldr]. rewrite IH, filter_cons.
  destruct (decide (oid = PollOption.id o)) as [->|Hne].
  - rewrite decide_True by done. cbn [length]. lia.
  - rewrite decide_False by done. lia.
Qed.

Lemma sum_add {A : Type} (f g : A -> Z) (l : list A) :
  foldr Z.add 0 (map (fun x => f x + g x) l)
  = foldr Z.add 0 (map f l) + foldr Z.add 0 (map g l).
Proof. induction l as [|x l IH]; cbn; lia. Qed.

(** Summed over the options of a poll, the votes per option are the
    votes whose option belongs to the poll. *)
Lemma sum_counts (st : Store) (P : string) (vs : list Vote.t) :
  unique_option_ids st ->
  foldr Z.add 0
    (map (fun o => Z.of_nat (length (filter (fun v => Vote.pollOptionId v
                                                     = PollOption.id o) vs)))
         (options_of st P))
  = Z.of_nat (length (filter (fun v => poll_of_option st (Vote.pollOptionId v)
                                       = Some P) vs)).
Proof.
  intros Hnd. induction vs as [|v vs IH].
  { cbn. induction (options_of st P) as [|o opts IHo]; cbn; [done|]. by rewrite IHo. }
  rewrite (map_ext _
    (fun o => (if decide (Vote.pollOptionId v = PollOption.id o) then 1 else 0)
              + Z.of_nat (length (filter (fun v => Vote.pollOptionId v
                                                   = PollOption.id o) vs)))).
  - rewrite sum_add, IH, sum_hits, (count_hits st P _ Hnd), filter_cons.
    destruct (decide (poll_of_option st (Vote.pollOptionId v) = Some P));
      cbn [length]; lia.
  - intros o. rewrite filter_cons. destruct (decide _); cbn [length]; lia.
Qed.

Lemma poll_findUnique_counts (order : nat) (st : Store) (P : string)
    (row : Poll.t * list (PollOption.t * Z)) :
  poll_findUnique order st P = Some row ->
  snd <$> row.2
  = map (fun o => count_votes st (PollOption.id o)) (returned order (options_of st P)).
Proof.
  unfold poll_findUnique. destruct (find_poll st P); [|done]. intros [= <-]. cbn.
  rewrite <- list_fmap_compose. done.
Qed.

(** The total does not depend on the order the options came in. *)
Lemma poll_findUnique_total (order : nat) (st : Store) (P : string)
    (row : Poll.t * list (PollOption.t * Z)) :
  poll_findUnique order st P = Some row ->
  foldr Z.add 0 (snd <$> row.2)
  = foldr Z.add 0 (map (fun o => count_votes st (PollOption.id o)) (options_of st P)).
Proof.
  intros Hrow. rewrite (poll_findUnique_counts _ _ _ _ Hrow).
  apply sum_Permutation, Permutation_map, returned_Permutation.
Qed.

Lemma sum_bounds (l : list Z) (x : Z) :
  (forall y, y ∈ l -> 0 <= y) -> x ∈ l -> 0 <= x <= foldr Z.add 0 l.
Proof.
  induction l as [|y l IH]; intros Hpos Hin; [by apply elem_of_nil in Hin|].
  assert (0 <= foldr Z.add 0 l).
  { clear IH Hin. induction l as [|z l IH]; cbn; [lia|].
    assert (0 <= z) by (apply Hpos; by repeat constructor).
    assert (0 <= foldr Z.add 0 l); [|lia].
    apply IH. intros y' Hy'. apply Hpos.
    apply elem_of_cons in Hy' as [->|Hy']; by repeat constructor. }
  assert (0 <= y) by (apply Hpos, list_elem_of_here). cbn.
  apply elem_of_cons in Hin as [->|Hin]; [lia|].
  destruct IH; [|done|lia]. intros y' Hy'. by apply Hpos, list_elem_of_further.
Qed.

(** X11: the tally counts every vote of the poll exactly once.  On a
    store whose option ids are unique, [totalVotes] is the number of
    votes whose option belongs to the poll, and no option is reported
    with a negative count or with more votes than the total. *)
Theorem totalVotes_counts_poll_votes (order : nat) (st : Store) (P : string)
    (row : Poll.t * list (PollOption.t * Z)) :
  unique_option_ids st ->
  poll_findUnique order st P = Some row ->
  totalVotes (tally row) = Z.of_nat (length (votes_of_poll st P))
  /\ Forall (fun r => 0 <= voteCount r <= totalVotes (tally row)) (options (tally row)).
Proof.
  intros Hnd Hrow. destruct row as [poll counted].
  pose proof (poll_findUnique_counts _ _ _ _ Hrow) as Hcounts.
  pose proof (poll_findUnique_total _ _ _ _ Hrow) as Htotal.
  cbn [snd] in Hcounts, Htotal.
  rewrite tally_total. split; [rewrite Htotal; by apply sum_counts|].
  rewrite tally_options, Forall_forall. intros r Hin.
  apply list_elem_of_fmap in Hin as (oc & -> & Hin). cbn [voteCount].
  apply sum_bounds.
  - intros y. rewrite Hcounts. intros Hy. apply list_elem_of_fmap in Hy as (o & -> & _).
    unfold count_votes. lia.
  - apply list_elem_of_fmap. by exists oc.
Qed.

Lemma seed_unique_option_ids : unique_option_ids seed.
Proof.
  unfold unique_option_ids. cbn. refine (bool_decide_unpack _ _). by vm_compute.
Qed.

Lemma totalVotes_counts_poll_votes_witness :
  totalVotes (tally (Poll.mk "p1" "What is your favorite programming language?" true "u1",
                     [(PollOption.mk "o1" "JavaScript" "p1", 1);
                      (PollOption.mk "o2" "Python" "p1", 0);
                      (PollOption.mk "o3" "Java" "p1", 0)]))
  = Z.of_nat (length (votes_of_poll seed "p1"))
  /\ Forall (fun r => 0 <= voteCount r
                      <= totalVotes
                           (tally (Poll.mk "p1" "What is your favorite programming language?"
                                     true "u1",
                                   [(PollOption.mk "o1" "JavaScript" "p1", 1);
                                    (PollOption.mk "o2" "Python" "p1", 0);
                                    (PollOption.mk "o3" "Java" "p1", 0)])))
       (options (tally (Poll.mk "p1" "What is your favorite programming language?"
                          true "u1",
                        [(PollOption.mk "o1" "JavaScript" "p1", 1);
                         (PollOption.mk "o2" "Python" "p1", 0);
                         (PollOption.mk "o3" "Java" "p1", 0)]))).
Proof.
  apply (totalVotes_counts_poll_votes 0 seed "p1"); [apply seed_unique_option_ids|].
  reflexivity.
Defined.

(** ** What one more vote changes *)

Lemma insert_vote_poll_of_option (st : Store) (userId oid id : string) :
  poll_of_option (insert_vote st userId oid).2 id = poll_of_option st id.
Proof. done. Qed.

Lemma insert_vote_count (st : Store) (userId oid id : string) :
  count_votes (insert_vote st userId oid).2 id
  = count_votes st id + (if decide (oid = id) then 1 else 0).
Proof.
  unfold count_votes. cbn [insert_vote snd votes].
  rewrite filter_app, length_app, filter_cons, filter_nil. cbn [Vote.pollOptionId].
  destruct (decide (oid = id)); cbn [length]; lia.
Qed.

(** X12: what an inserted vote changes.  The count of the chosen
    option goes up by one and no other option's count changes; on a
    store whose option ids are unique, the total of the option's poll
    goes up by exactly one, and the answer of the store about any other
    poll, with all its counts, is what it was. *)
Theorem vote_counted_once (st : Store) (userId oid : string) (o : PollOption.t) :
  unique_option_ids st ->
  find_option st oid = Some o ->
  count_votes (insert_vote st userId oid).2 oid = count_votes st oid + 1
  /\ (forall other, other <> oid ->
        count_votes (insert_vote st userId oid).2 other = count_votes st other)
  /\ (forall order order' row row',
        poll_findUnique order st (PollOption.pollId o) = Some row ->
        poll_findUnique order' (insert_vote st userId oid).2 (PollOption.pollId o)
        = Some row' ->
        totalVotes (tally row') = totalVotes (tally row) + 1)
  /\ (forall order Q, Q <> PollOption.pollId o ->
        poll_findUnique order (insert_vote st userId oid).2 Q
        = poll_findUnique order st Q).
Proof.
  intros Hnd Ho. split; [|split; [|split]].
  - by rewrite insert_vote_count, decide_True.
  - intros other Hne. rewrite insert_vote_count, decide_False by done. lia.
  - intros order order' [poll counted] [poll' counted'] Hrow Hrow'.
    pose proof (poll_findUnique_total _ _ _ _ Hrow) as Hc.
    pose proof (poll_findUnique_total _ _ _ _ Hrow') as Hc'. cbn [snd] in Hc, Hc'.
    rewrite !tally_total, Hc, Hc'.
    change (options_of (insert_vote st userId oid).2 (PollOption.pollId o))
      with (options_of st (PollOption.pollId o)).
    unfold count_votes. rewrite !(sum_counts st _ _ Hnd).
    cbn [insert_vote snd votes]. rewrite filter_app, length_app, filter_cons, filter_nil.
    cbn [Vote.pollOptionId]. rewrite decide_True; [cbn [length]; lia|].
    unfold poll_of_option. by rewrite Ho.
  - intros order Q HQ. unfold poll_findUnique.
    change (find_poll (insert_vote st userId oid).2 Q) with (find_poll st Q).
    change (options_of (insert_vote st userId oid).2 Q) with (options_of st Q).
    destruct (find_poll st Q) as [q|]; [|done]. cbn -[count_votes insert_vote].
    do 2 f_equal. apply map_ext_in. intros o' Hin. f_equal.
    rewrite insert_vote_count, decide_False; [lia|].
    intros Hid. apply HQ. apply list_elem_of_In in Hin.
    rewrite returned_Permutation in Hin.
    apply list_elem_of_filter in Hin as [HQ' Hin].
    apply find_option_Some in Ho as [Hin0 Hid0].
    assert (Heq : filter (fun x => PollOption.id x = PollOption.id o)
                    (filter (fun _ => True) (pollOptions st)) = [o]).
    { by rewrite (filter_id_unique _ _ o Hnd Hin0), decide_True. }
    assert (Hin' : o' ∈ [o]).
    { rewrite <- Heq. apply list_elem_of_filter. split; [congruence|].
      by apply list_elem_of_filter. }
    apply list_elem_of_singleton in Hin' as ->. done.
Qed.

Lemma vote_counted_once_witness :
  count_votes (insert_vote seed "u3" "o2").2 "o2" = count_votes seed "o2" + 1
  /\ (forall other, other <> "o2" ->
        count_votes (insert_vote seed "u3" "o2").2 other = count_votes seed other)
  /\ (forall order order' row row',
        poll_findUnique order seed "p1" = Some row ->
        poll_findUnique order' (insert_vote seed "u3" "o2").2 "p1" = Some row' ->
        totalVotes (tally row') = totalVotes (tally row) + 1)
  /\ (forall order Q, Q <> "p1" ->
        poll_findUnique order (insert_vote seed "u3" "o2").2 Q
        = poll_findUnique order seed Q).
Proof.
  exact (vote_counted_once seed "u3" "o2" (PollOption.mk "o2" "Python" "p1")
           seed_unique_option_ids eq_refl).
Defined.

(** ** Every request is answered *)

(** A handler that has answered stays as it is. *)
Lemma sys_run_Ret vu (schedule : list Action) (s : System) (pid : nat) (r : Response) :
  procs s !! pid = Some (Ret r) ->
  procs (sys_run vu schedule s) !! pid = Some (Ret r).
Proof.
  revert s. induction schedule as [|a schedule IH]; intros s Hp; [done|].
  change (sys_run vu (a :: schedule) s) with (sys_run vu schedule (sys_step vu s a)).
  apply IH. destruct a as [q order|sid ev|sid]; [|done..].
  unfold sys_step. destruct (procs s !! q) as [pq|] eqn:Hq; [|done].
  destruct (step vu order pq (world s)) as [[p' w'] effs] eqn:Hstep. cbn [procs].
  destruct (decide (q = pid)) as [->|Hne].
  - rewrite Hp in Hq. injection Hq as <-. rewrite step_Ret in Hstep.
    injection Hstep as <- <- <-. rewrite list_lookup_insert_eq; [done|].
    by eapply lookup_lt_Some.
  - by rewrite list_lookup_insert_ne.
Qed.

(** Only the check of the id answers 400. *)
Lemma phase_Ret_400 (st0 : Store) (req : Request) (r : Response) (effs : list Effect) :
  phase st0 req (Ret r) effs -> status r = 400 ->
  body req <> JNull /\ truthy (prop "pollOptionId" (body req)) = false.
Proof.
  intros H H400. remember (Ret r) as p eqn:Hp. destruct H.
  - destruct (submitVote_cases req) as [[_ Hs]|[(? & ? & Hs)|(_ & _ & Hs)]];
      rewrite Hs in Hp; [|done|discriminate].
    injection Hp as <-. discriminate.
  - rewrite resume_eq in Hp.
    destruct (pollOption_findUnique st0 _) as [[[o poll]|]|err].
    + unfold submitVote_check in Hp. destruct (Poll.isPublished poll); cbn in Hp;
        [discriminate|]. by injection Hp as <-.
    + cbn in Hp. by injection Hp as <-.
    + unfold submitVote_catch in Hp. destruct (bool_decide _); by injection Hp as <-.
  - destruct existing; cbn in Hp; [|discriminate]. by injection Hp as <-.
  - unfold submitVote_catch in Hp. destruct (bool_decide _); by injection Hp as <-.
  - by destruct (submitVote_created_unfold req poll (v, o, poll)) as (k & Hk & _);
      rewrite Hk in Hp.
  - discriminate.
  - by injection Hp as <-.
Qed.

(** X13: every vote request is answered.  Whatever the request, the
    store and the interleaving, a [submitVote] handler that has had five
    turns has answered, with one of the statuses 201, 400, 404, 403, 409
    and 500.  A request with a null body is answered 500; one with
    another body is answered 400 exactly when it carries no
    [pollOptionId] (or a falsy one); and a request answered 201 named
    its option by a string. *)
Theorem submitVote_answers (vu : Store -> string -> string -> Vote.t -> bool)
    (w : World) (requests : list Request) (schedule : list Action)
    (pid : nat) (req : Request) :
  requests !! pid = Some req ->
  (5 <= turns pid schedule)%nat ->
  exists r,
    procs (sys_run vu schedule (serve w requests)) !! pid = Some (Ret r)
    /\ status r ∈ [201; 400; 404; 403; 409; 500]
    /\ (body req = JNull -> status r = 500)
    /\ (body req <> JNull ->
        (status r = 400 <-> truthy (prop "pollOptionId" (body req)) = false))
    /\ (status r = 201 ->
        exists oid, prop "pollOptionId" (body req) = Some (JStr oid)).
Proof.
  intros Hreq Hturns.
  assert (Hp : procs (serve w requests) !! pid = Some (submitVote req)).
  { cbn. by rewrite list_lookup_fmap, Hreq. }
  destruct (sys_run_finishes vu schedule _ pid _ 5 Hp (finishes_submitVote req))
    as (p' & Hp' & Hfin).
  replace (5 - turns pid schedule)%nat with 0%nat in Hfin by lia.
  destruct (finishes_0 _ Hfin) as [r ->]. exists r. split; [done|].
  destruct (well_phased_run vu _ _ schedule _ (well_phased_serve w requests))
    as (_ & _ & _ & Hph).
  destruct (Hph _ _ Hp') as (req' & Hreq' & Hphase).
  rewrite Hreq in Hreq'. injection Hreq' as <-.
  split; [|split; [|split]].
  - destruct (phase_Ret _ _ _ _ Hphase) as [[-> _]|[_ Hst]]; [by repeat constructor|].
    by apply list_elem_of_further.
  - intros Hnull.
    destruct (submitVote_cases req) as [[_ Hs]|[(? & _)|(? & _)]]; [|done..].
    rewrite Hs in Hp. pose proof (sys_run_Ret vu schedule _ _ _ Hp) as Hstay.
    rewrite Hp' in Hstay. by injection Hstay as ->.
  - intros Hbody. split; [intros H400; by apply (phase_Ret_400 _ _ _ _ Hphase H400)|].
    intros Hfalsy.
    destruct (submitVote_cases req) as [[? _]|[(_ & _ & Hs)|(_ & Htruthy & _)]];
      [done| |congruence].
    rewrite Hs in Hp. pose proof (sys_run_Ret vu schedule _ _ _ Hp) as Hstay.
    rewrite Hp' in Hstay. by injection Hstay as ->.
  - intros H201.
    destruct (phase_answered_201 _ _ _ _ Hphase H201) as (o & poll & v & Hadm & _).
    destruct Hadm as (Hid & _). by eexists.
Qed.

Lemma submitVote_answers_witness :
  exists r,
    procs (sys_run unique_voter_poll race (serve seed_world carol_requests)) !! 0%nat
    = Some (Ret r)
    /\ status r ∈ [201; 400; 404; 403; 409; 500]
    /\ (body (vote_request carol "o1") = JNull -> status r = 500)
    /\ (body (vote_request carol "o1") <> JNull ->
        (status r = 400
         <-> truthy (prop "pollOptionId" (body (vote_request carol "o1"))) = false))
    /\ (status r = 201 ->
        exists oid,
          prop "pollOptionId" (body (vote_request carol "o1")) = Some (JStr oid)).
Proof.
  apply (submitVote_answers unique_voter_poll seed_world carol_requests race 0
           (vote_request carol "o1") eq_refl).
  vm_compute. lia.
Defined.

(** ** A second vote, after the first *)

(** A handler run alone goes through the phases, too. *)
Lemma run_phase vu order (st0 : Store) (req : Request) (n : nat) :
  forall (p : Prog Response) (effs : list Effect) (w : World)
         (p' : Prog Response) (w' : World) (e : list Effect),
    same_tables (db w) st0 ->
    (forall v, Inserted v ∈ effs -> v ∈ votes (db w)) ->
    phase st0 req p effs ->
    run vu order n p w = (p', w', e) ->
    phase st0 req p' (effs ++ e) /\ same_tables (db w') st0
    /\ rooms w' = rooms w /\ votes (db w') = votes (db w) ++ inserted e.
Proof.
  induction n as [|n IH]; intros p effs w p' w' e Htab Hdur Hphase; cbn [run].
  { intros [= <- <- <-]. by rewrite !app_nil_r. }
  assert (Hstay : (p, w, @nil Effect) = (p', w', e) ->
            phase st0 req p' (effs ++ e) /\ same_tables (db w') st0
            /\ rooms w' = rooms w /\ votes (db w') = votes (db w) ++ inserted e).
  { intros [= <- <- <-]. by rewrite !app_nil_r. }
  assert (Hgo : (let '(p1, w1, e1) := step vu order p w in
                 let '(p2, w2, e2) := run vu order n p1 w1 in (p2, w2, e1 ++ e2))
                = (p', w', e) ->
            phase st0 req p' (effs ++ e) /\ same_tables (db w') st0
            /\ rooms w' = rooms w /\ votes (db w') = votes (db w) ++ inserted e).
  { destruct (step vu order p w) as [[p1 w1] e1] eqn:Hstep.
    destruct (run vu order n p1 w1) as [[p2 w2] e2] eqn:Hrun. intros [= <- <- <-].
    destruct (step_frame _ _ _ _ _ _ _ Hstep) as ((Husers & Hpolls & Hopts) & Hrooms & Hv).
    destruct (IH p1 (effs ++ e1) w1 p2 w2 e2) as (Hph & Htab' & Hrooms' & Hv').
    - destruct Htab as (? & ? & ?). repeat split; congruence.
    - intros v Hin. rewrite Hv. apply elem_of_app in Hin as [Hin|Hin].
      + apply elem_of_app. left. by apply Hdur.
      + apply elem_of_app. right. by apply elem_of_inserted.
    - by eapply phase_step.
    - done.
    - rewrite app_assoc. split; [done|]. split; [done|]. split; [congruence|].
      by rewrite Hv', Hv, inserted_app, app_assoc. }
  destruct p; done.
Qed.

(** X14: after an accepted vote, a later vote of the same voter in
    the same poll is refused before it reaches the table.  When
    [submitVote] has answered 201, any request of that voter made
    afterwards for an option of the same poll (the same option or
    another) is answered 409 'You have already voted in this poll' and
    changes nothing, whatever the uniqueness constraint of the table
    is. *)
Theorem second_vote_rejected (vu : Store -> string -> string -> Vote.t -> bool)
    (order order' fuel : nat) (w w1 : World) (req1 req2 : Request) (r1 : Response)
    (effs1 : list Effect) (oid1 oid2 : string) :
  run vu order fuel (submitVote req1) w = (Ret r1, w1, effs1) -> status r1 = 201 ->
  prop "pollOptionId" (body req1) = Some (JStr oid1) ->
  prop "pollOptionId" (body req2) = Some (JStr oid2) -> oid2 <> "" ->
  User.id (user req2) = User.id (user req1) ->
  poll_of_option (db w) oid2 = poll_of_option (db w) oid1 ->
  run vu order' 4 (submitVote req2) w1
  = (respond 409 (error_body "You have already voted in this poll"), w1, []).
Proof.
  intros Hrun H201 Hid1 Hid2 Hne Huser Hsame.
  destruct (run_phase vu order (db w) req1 fuel _ [] w _ _ _
              (conj eq_refl (conj eq_refl eq_refl))
              (fun v H => False_ind _ (proj1 (elem_of_nil _) H))
              (phase_start _ _) Hrun)
    as (Hphase & Htab & _ & Hvotes).
  destruct (phase_answered_201 _ _ _ _ Hphase H201)
    as (o & poll & v & (Hid & Ho & Hpoll & Hpub & Hu) & _ & Hin).
  rewrite Hid1 in Hid. injection Hid as ->.
  assert (Hv : v ∈ votes (db w1)).
  { rewrite Hvotes. apply elem_of_app. right. by apply elem_of_inserted. }
  unfold poll_of_option in Hsame. rewrite Ho in Hsame.
  destruct (find_option (db w) oid2) as [o2|] eqn:Ho2; [|done].
  injection Hsame as Hsame.
  rewrite (submitVote_unfold req2 oid2 Hid2 Hne). cbn.
  unfold pollOption_findUnique.
  rewrite (same_tables_find_option _ _ _ Htab), Ho2.
  rewrite (same_tables_find_poll _ _ _ Htab), Hsame, Hpoll. cbn. rewrite Hpub. cbn.
  destruct (find_vote_in_poll (db w1) (User.id (user req2)) (Poll.id poll) v Hv)
    as [v' ->]; [congruence| |reflexivity].
  rewrite (same_tables_poll_of_option _ _ _ Htab). unfold poll_of_option.
  by rewrite Ho, (find_poll_id _ _ _ Hpoll).
Qed.

Lemma second_vote_rejected_witness :
  run unique_voter_option 0 4 (submitVote (vote_request carol "o3"))
    (voted seed_world carol "o2")
  = (respond 409 (error_body "You have already voted in this poll"),
     voted seed_world carol "o2", []).
Proof.
  refine (second_vote_rejected unique_voter_option 0 0 5 seed_world _
            (vote_request carol "o2") (vote_request carol "o3")
            (answer_201 (vote_request carol "o2")
               (Vote.mk "c1" "u3" "o2" 1, PollOption.mk "o2" "Python" "p1",
                Poll.mk "p1" "What is your favorite programming language?" true "u1"))
            [Inserted (Vote.mk "c1" "u3" "o2" 1);
             Emitted "poll-p1" "pollUpdate" two_votes_payload ["s1"; "s2"]]
            "o2" "o3" _ eq_refl eq_refl eq_refl _ eq_refl eq_refl).
  - vm_compute. reflexivity.
  - discriminate.
Defined.

(** ** Who gets connected *)

Lemma user_findUnique_Some (users : list Account.t) (id : value) (user : JSON) :
  user_findUnique users id = inl (Some user) ->
  exists a, a ∈ users /\ id = Some (JStr (Account.id a)) /\ user = select_user a.
Proof.
  unfold user_findUnique. destruct id as [[| | |userId| |]|]; try done.
  destruct (List.find _ users) as [a|] eqn:Hfind; [|done]. cbn. intros [= <-].
  apply find_some in Hfind as [Hin Hid]. apply bool_decide_eq_true in Hid as <-.
  exists a. split; [by apply list_elem_of_In|done].
Qed.

Lemma authenticateSocket_inl jwt_verify (users : list Account.t) (now : Z)
    (auth user : JSON) :
  authenticateSocket jwt_verify users now auth = inl user ->
  exists token decoded a,
    prop "token" auth = Some (JStr token) /\ token <> ""
    /\ jwt_verify now token = Some decoded
    /\ prop "userId" decoded = Some (JStr (Account.id a))
    /\ a ∈ users /\ user = select_user a.
Proof.
  unfold authenticateSocket.
  destruct (truthy (prop "token" auth)) eqn:Htruthy; [|done]. cbn [negb].
  destruct (prop "token" auth) as [[| | |token| |]|]; try done.
  destruct (jwt_verify now token) as [decoded|] eqn:Hverify; [|done].
  destruct (user_findUnique users (prop "userId" decoded)) as [[u|]|] eqn:Hfind;
    [|done..].
  intros [= <-]. apply user_findUnique_Some in Hfind as (a & Hin & Hid & ->).
  exists token, decoded, a. repeat split; try done.
  intros ->. cbn in Htruthy. by rewrite bool_decide_true in Htruthy.
Qed.

(** X15: whom [authenticateSocket] lets in, and what it answers
    otherwise.  A socket is let in only with a non-empty string token
    that [jwt.verify] accepts and whose [userId] is the id of a row of
    the user table; the user attached to the socket is that row's id,
    name and email, nothing else.  Every refusal carries the message
    'Authentication error' or 'User not found', the latter only when the
    token was accepted. *)
Theorem authenticateSocket_admits (jwt_verify : Z -> string -> option JSON)
    (users : list Account.t) (now : Z) (auth : JSON) :
  (forall user,
     authenticateSocket jwt_verify users now auth = inl user ->
     exists token decoded a,
       prop "token" auth = Some (JStr token) /\ token <> ""
       /\ jwt_verify now token = Some decoded
       /\ prop "userId" decoded = Some (JStr (Account.id a))
       /\ a ∈ users /\ user = select_user a
       /\ keys user = ["id"; "name"; "email"])
  /\ (forall message,
        authenticateSocket jwt_verify users now auth = inr message ->
        message = "Authentication error"
        \/ (message = "User not found"
            /\ exists token decoded userId,
                 prop "token" auth = Some (JStr token)
                 /\ jwt_verify now token = Some decoded
                 /\ prop "userId" decoded = Some (JStr userId)
                 /\ forall a, a ∈ users -> Account.id a <> userId)).
Proof.
  split.
  - intros user H. apply authenticateSocket_inl in H
      as (token & decoded & a & ? & ? & ? & ? & ? & ->).
    exists token, decoded, a. by repeat split.
  - intros message. unfold authenticateSocket.
    destruct (truthy (prop "token" auth)); cbn [negb]; [|intros [= <-]; by left].
    destruct (prop "token" auth) as [[| | |token| |]|]; try (intros [= <-]; by left).
    destruct (jwt_verify now token) as [decoded|] eqn:Hverify;
      [|intros [= <-]; by left].
    unfold user_findUnique.
    destruct (prop "userId" decoded) as [[| | |userId| |]|] eqn:Huid;
      try (intros [= <-]; by left).
    destruct (List.find _ users) as [a|] eqn:Hfind; cbn; [done|].
    intros [= <-]. right. split; [done|]. exists token, decoded, userId.
    split; [done|]. split; [done|]. split; [done|].
    intros a Hin Hid. apply list_elem_of_In in Hin.
    pose proof (find_none _ _ Hfind _ Hin) as Hno. cbn in Hno.
    by rewrite bool_decide_true in Hno.
Qed.

Lemma authenticateSocket_admits_witness :
  exists token decoded a,
    prop "token" carol_handshake = Some (JStr token) /\ token <> ""
    /\ one_token 5 token = Some decoded
    /\ prop "userId" decoded = Some (JStr (Account.id a))
    /\ a ∈ accounts
    /\ JObj [("id", JStr "u3"); ("name", JStr "Carol Wilson");
             ("email", JStr "carol@example.com")] = select_user a
    /\ keys (JObj [("id", JStr "u3"); ("name", JStr "Carol Wilson");
                   ("email", JStr "carol@example.com")]) = ["id"; "name"; "email"].
Proof.
  exact (proj1 (authenticateSocket_admits one_token accounts 5 carol_handshake)
           (JObj [("id", JStr "u3"); ("name", JStr "Carol Wilson");
                  ("email", JStr "carol@example.com")]) eq_refl).
Defined.

(** ** Only authenticated sockets are in rooms *)

Lemma authenticated_step jwt_verify (users : list Account.t) (io : Io)
    (a : ClientAction) :
  authenticated users io -> authenticated users (io_step jwt_verify users io a).
Proof.
  intros (Hrooms & Husers & Hsent). destruct a as [now auth|sid ev|sid]; cbn [io_step].
  - destruct (authenticateSocket jwt_verify users now auth) as [user|msg] eqn:Hauth;
      [|done].
    apply authenticateSocket_inl in Hauth as (_ & _ & a & _ & _ & _ & _ & Hin & ->).
    split; [|split]; cbn.
    + intros room sid Hsid. destruct (decide (socket_id (issued io) = sid)) as [<-|Hne].
      * by rewrite lookup_insert_eq.
      * rewrite lookup_insert_ne by done. by eapply Hrooms.
    + intros sid user. destruct (decide (socket_id (issued io) = sid)) as [<-|Hne].
      * rewrite lookup_insert_eq. intros [= <-]. by exists a.
      * rewrite lookup_insert_ne by done. apply Husers.
    + intros sid event payload Hmsg. apply elem_of_app in Hmsg as [Hmsg|Hmsg].
      * by apply (Hsent sid).
      * apply list_elem_of_singleton in Hmsg as [= -> -> ->]. split; [done|].
        by exists a.
  - destruct (decide (is_Some (sockets io !! sid))) as [Hsid|]; [|done].
    split; [|done]. cbn. intros room sid'.
    destruct ev as [pollId|pollId|]; cbn; [| |apply Hrooms].
    + rewrite members_join. destruct (decide _); [|apply Hrooms].
      rewrite elem_of_union, elem_of_singleton. intros [->|Hin]; [done|].
      by eapply Hrooms.
    + rewrite members_leave. destruct (decide _); [|apply Hrooms].
      rewrite elem_of_difference. intros [Hin _]. by eapply Hrooms.
  - destruct (decide (is_Some (sockets io !! sid))) as [Hsid|]; [|done].
    split; [|split; [|done]]; cbn.
    + intros room sid'. rewrite members_leaveAll, elem_of_difference, elem_of_singleton.
      intros [Hin Hne]. rewrite lookup_delete_ne by done. by eapply Hrooms.
    + intros sid' user Hlook. apply lookup_delete_Some in Hlook as [_ Hlook].
      by eapply Husers.
Qed.

Lemma authenticated_run jwt_verify (users : list Account.t)
    (actions : list ClientAction) (io : Io) :
  authenticated users io -> authenticated users (io_run jwt_verify users actions io).
Proof.
  revert io. induction actions as [|a actions IH]; intros io Hio; [done|].
  cbn. apply IH. by apply authenticated_step.
Qed.

(** X16: only authenticated sockets receive anything.  On a server
    that starts without connections, whatever clients do and in
    whatever order, with any tokens, a broadcast to any room is
    delivered only to connected sockets, every connected socket carries
    the id, name and email of a row of the user table, as
    [authenticateSocket] attached them, and nothing was ever sent to a
    socket except the ['connected'] greeting of such a user. *)
Theorem only_authenticated_reached (jwt_verify : Z -> string -> option JSON)
    (users : list Account.t) (actions : list ClientAction) :
  (forall room sid,
     sid ∈ recipients (adapter (io_run jwt_verify users actions io_start)) room ->
     exists a, a ∈ users
               /\ sockets (io_run jwt_verify users actions io_start) !! sid
                  = Some (select_user a))
  /\ forall to event payload,
       (to, event, payload) ∈ sent (io_run jwt_verify users actions io_start) ->
       event = "connected"
       /\ exists a, a ∈ users /\ payload = connected (select_user a).
Proof.
  destruct (authenticated_run jwt_verify users actions io_start)
    as (Hrooms & Husers & Hsent).
  { split; [|split].
    - intros r s0 H. unfold members in H. cbn in H. rewrite lookup_empty in H.
      cbn in H. set_solver.
    - intros s0 u H. cbn in H. by rewrite lookup_empty in H.
    - intros s0 e pl H. cbn in H. by apply elem_of_nil in H. }
  split; [|exact Hsent]. intros room sid Hin.
  unfold recipients in Hin. apply elem_of_elements in Hin.
  destruct (Hrooms _ _ Hin) as [user Huser].
  destruct (Husers _ _ Huser) as (a & Ha & ->). by exists a.
Qed.

Lemma only_authenticated_reached_witness :
  exists a, a ∈ accounts
            /\ sockets (io_run one_token accounts
                          [Connect 200 carol_handshake; Connect 5 carol_handshake;
                           Send "s0" (joinPoll "p1"); Send "s1" (joinPoll "p1")]
                          io_start) !! "s1"
               = Some (select_user a).
Proof.
  apply (proj1 (only_authenticated_reached one_token accounts
                  [Connect 200 carol_handshake; Connect 5 carol_handshake;
                   Send "s0" (joinPoll "p1"); Send "s1" (joinPoll "p1")])
           "poll-p1" "s1").
  vm_compute. apply list_elem_of_here.
Defined.

(** ** What gets into the vote table *)

(** X18: every vote that enters the table was asked for.  In any
    interleaving, a row of the vote table that was not there at the
    start carries the id of the user of one of the requests and the
    option id that request named; the handler of that request inserted
    it, and if that handler has answered, its answer is none of the
    rejections 400, 404, 403 and 409: nobody votes in another's name or
    for an option that was not named, and no rejected request leaves a
    vote, whatever the timing. *)
Theorem inserted_votes_admitted (vu : Store -> string -> string -> Vote.t -> bool)
    (w : World) (requests : list Request) (schedule : list Action) (v : Vote.t) :
  v ∈ votes (db (world (sys_run vu schedule (serve w requests)))) ->
  v ∈ votes (db w)
  \/ exists pid req,
       requests !! pid = Some req
       /\ Vote.userId v = User.id (user req)
       /\ prop "pollOptionId" (body req) = Some (JStr (Vote.pollOptionId v))
       /\ (pid, Inserted v) ∈ trace (sys_run vu schedule (serve w requests))
       /\ forall r,
            procs (sys_run vu schedule (serve w requests)) !! pid = Some (Ret r) ->
            status r ∉ [400; 404; 403; 409].
Proof.
  pose proof (well_phased_run vu _ _ schedule _ (well_phased_serve w requests)) as Hwf.
  destruct Hwf as (Htab & Hv & Hrest).
  assert (Hwf : well_phased (db w) requests (sys_run vu schedule (serve w requests)))
    by (by split).
  rewrite Hv, elem_of_app. intros [Hin|Hin]; [by left|]. right.
  destruct (inserted_admitted _ _ _ _ Hwf Hin)
    as (pid & req & o & poll & Hreq & (Hid & Ho & Hpoll & Hpub & Hu) & Heff).
  exists pid, req. split; [done|]. split; [done|]. split; [done|]. split.
  - unfold effects_of in Heff. apply list_elem_of_fmap in Heff as ([q e] & He & Heff).
    apply list_elem_of_filter in Heff as [Hq Heff]. cbn in He, Hq. by subst.
  - intros r Hp. destruct Hrest as (_ & Hph).
    destruct (Hph _ _ Hp) as (req' & Hreq' & Hphase).
    destruct (phase_Ret _ _ _ _ Hphase) as [[H201 _]|[Hnil _]].
    + rewrite H201, !elem_of_cons, elem_of_nil. lia.
    + rewrite Hnil in Heff. by apply elem_of_nil in Heff.
Qed.

Lemma inserted_votes_admitted_witness :
  Vote.mk "c1" "u3" "o1" 1 ∈ votes (db seed_world)
  \/ exists pid req,
       carol_requests !! pid = Some req
       /\ Vote.userId (Vote.mk "c1" "u3" "o1" 1) = User.id (user req)
       /\ prop "pollOptionId" (body req)
          = Some (JStr (Vote.pollOptionId (Vote.mk "c1" "u3" "o1" 1)))
       /\ (pid, Inserted (Vote.mk "c1" "u3" "o1" 1))
            ∈ trace (sys_run unique_voter_poll race (serve seed_world carol_requests))
       /\ forall r,
            procs (sys_run unique_voter_poll race (serve seed_world carol_requests))
              !! pid = Some (Ret r) ->
            status r ∉ [400; 404; 403; 409].
Proof.
  apply (inserted_votes_admitted unique_voter_poll seed_world carol_requests race).
  vm_compute. apply list_elem_of_further, list_elem_of_here.
Defined.
